(** * Houdini: document scrubbing and type-definition synthesis

    A shallow embedding of

    - [src/cmd/utils/scrubSelection.ts] (function [scrubSelection]), and
    - the typescript generator ([typescriptGenerator],
      [generateOperationTypeDefs], [generateFragmentTypeDefs],
      [internalTypeImport], [fragmentKey]),

    together with the properties stated about them.

    GraphQL documents are modelled after the node types of graphql-js
    ([NameNode], [DirectiveNode], ...), restricted to executable documents
    (operations and fragments), which are the documents houdini collects.
    The used-variable set of the scrubber is a [gset string]. *)

From stdpp Require Import base option list strings gmap.
From Stdlib Require Import Ascii.

Set Warnings "-register-all,-clear-no-such-hyp".

(** ** GraphQL syntax trees *)

Module GraphQL.

(** [{ kind: 'Name', value }] *)
Record NameNode := Name { value : string }.

(** [{ kind: 'Variable', name }] *)
Record VariableNode := Var { variable_name : NameNode }.

(** [{ kind: 'NamedType', name }] *)
Record NamedTypeNode := NamedType { namedType_name : NameNode }.

Inductive TypeNode : Type :=
| TypeNamed (type : NamedTypeNode)
| ListType (type : TypeNode)
| NonNullType (type : TypeNode).

(** Values. The parameter [V] is the type of variable occurrences:
    [ValueNode VariableNode] is graphql-js's [ValueNode], and
    [ValueNode Empty_set] is [ConstValueNode], the values of the
    grammar's [Value[Const]], in which no variable can occur. *)
Inductive ValueNode (V : Type) : Type :=
| VariableValue (variable : V)
| IntValue (value : string)
| FloatValue (value : string)
| StringValue (value : string) (block : bool)
| BooleanValue (value : bool)
| NullValue
| EnumValue (value : string)
| ListValue (values : list (ValueNode V))
| ObjectValue (fields : list (ObjectFieldNode V))
with ObjectFieldNode (V : Type) : Type :=
| ObjectField (name : NameNode) (value : ValueNode V).

Arguments VariableValue {V} _.
Arguments IntValue {V} _.
Arguments FloatValue {V} _.
Arguments StringValue {V} _ _.
Arguments BooleanValue {V} _.
Arguments NullValue {V}.
Arguments EnumValue {V} _.
Arguments ListValue {V} _.
Arguments ObjectValue {V} _.
Arguments ObjectField {V} _ _.

(** [{ kind: 'Argument', name, value }] *)
Inductive ArgumentNode (V : Type) : Type :=
| Argument (name : NameNode) (value : ValueNode V).
Arguments Argument {V} _ _.

(** [{ kind: 'Directive', name, arguments }] *)
Inductive DirectiveNode_ (V : Type) : Type :=
| Directive (name : NameNode) (arguments : list (ArgumentNode V)).
Arguments Directive {V} _ _.

Abbreviation DirectiveNode := (DirectiveNode_ VariableNode).
Abbreviation ConstDirectiveNode := (DirectiveNode_ Empty_set).
Abbreviation ConstValueNode := (ValueNode Empty_set).

Definition directive_name {V} (d : DirectiveNode_ V) : NameNode :=
  match d with Directive n _ => n end.
Definition directive_arguments {V} (d : DirectiveNode_ V) : list (ArgumentNode V) :=
  match d with Directive _ a => a end.

(** A constant node is in particular a node: the inclusion of
    [ConstValueNode] in [ValueNode] and of [ConstDirectiveNode] in
    [DirectiveNode]. *)
Fixpoint ofConstValue (v : ConstValueNode) : ValueNode VariableNode :=
  match v with
  | VariableValue x => match x with end
  | IntValue s => IntValue s
  | FloatValue s => FloatValue s
  | StringValue s b => StringValue s b
  | BooleanValue b => BooleanValue b
  | NullValue => NullValue
  | EnumValue s => EnumValue s
  | ListValue vs => ListValue (map ofConstValue vs)
  | ObjectValue fs =>
      ObjectValue
        (map (fun f => match f with
                       | ObjectField n v => ObjectField n (ofConstValue v)
                       end) fs)
  end.

Definition ofConstArgument (a : ArgumentNode Empty_set) : ArgumentNode VariableNode :=
  match a with Argument n v => Argument n (ofConstValue v) end.

Definition ofConstDirective (d : ConstDirectiveNode) : DirectiveNode :=
  match d with Directive n args => Directive n (map ofConstArgument args) end.

(** [{ kind: 'VariableDefinition', variable, type, defaultValue, directives }].
    The default value and the directives of a definition are constant
    ([DefaultValue : = Value[Const]], [Directives[Const]]). *)
Record VariableDefinitionNode := VariableDefinition {
  vd_variable : VariableNode;
  vd_type : TypeNode;
  vd_defaultValue : option ConstValueNode;
  vd_directives : list ConstDirectiveNode
}.

Inductive SelectionNode : Type :=
| Field (alias : option NameNode) (name : NameNode)
        (arguments : list (ArgumentNode VariableNode))
        (directives : list DirectiveNode)
        (selectionSet : option SelectionSetNode)
| FragmentSpread (name : NameNode) (directives : list DirectiveNode)
| InlineFragment (typeCondition : option NamedTypeNode)
                 (directives : list DirectiveNode)
                 (selectionSet : SelectionSetNode)
with SelectionSetNode : Type :=
| SelectionSet (selections : list SelectionNode).

Inductive OperationTypeNode := query | mutation | subscription.

(** An absent optional array ([variableDefinitions?], [directives?],
    [arguments?]) is the empty list: the code below reads such an array
    only through its length and its elements. *)
Record OperationDefinitionNode := OperationDefinition {
  op_operation : OperationTypeNode;
  op_name : option NameNode;
  op_variableDefinitions : list VariableDefinitionNode;
  op_directives : list DirectiveNode;
  op_selectionSet : SelectionSetNode
}.

Record FragmentDefinitionNode := FragmentDefinition {
  frag_name : NameNode;
  frag_variableDefinitions : list VariableDefinitionNode;
  frag_typeCondition : NamedTypeNode;
  frag_directives : list DirectiveNode;
  frag_selectionSet : SelectionSetNode
}.

Inductive DefinitionNode : Type :=
| Operation (definition : OperationDefinitionNode)
| Fragment (definition : FragmentDefinitionNode).

Record DocumentNode := Document { definitions : list DefinitionNode }.

(** The [kind] tags of the nodes above. *)
Inductive Kind :=
| KName | KDocument | KOperationDefinition | KVariableDefinition | KVariable
| KSelectionSet | KField | KArgument | KFragmentSpread | KInlineFragment
| KFragmentDefinition | KIntValue | KFloatValue | KStringValue
| KBooleanValue | KNullValue | KEnumValue | KListValue | KObjectValue
| KObjectField | KDirective | KNamedType | KListType | KNonNullType.

End GraphQL.

Import GraphQL.

(** ** The tree visitor

    [graphql.visit(root, visitor)] walks the tree depth first. At each node
    it calls the visitor's function for the node's kind, if there is one,
    with the node, its key and its parent (the enclosing node, or the
    enclosing array for an element of an array). When the function returns
    [null] the node is deleted (spliced out of its array) and its children
    are not visited; when it returns [undefined] the walk goes on through
    the children, in the order of [QueryDocumentKeys], and the node is
    rebuilt from the visited children.

    The visitors of [scrubSelection] have functions for three kinds only:
    [Directive] and [VariableDefinition], which decide on a deletion without
    touching any state, and [Variable], which updates a set and returns
    [undefined]. [Visitor] has these three entries; a visitor without a
    function for a kind has the default entry. *)

Module Visit.

Inductive Action :=
| Continue   (* the function returned undefined *)
| Delete.    (* the function returned null *)

(** What a visitor function receives as [parent]. *)
Inductive Parent :=
| ParentArray
| ParentNode (kind : Kind).

Record Visitor (S : Type) := {
  onDirective : DirectiveNode -> Action;
  onVariable : VariableNode -> Parent -> S -> S;
  onVariableDefinition : VariableDefinitionNode -> Action
}.
Arguments onDirective {S} _ _.
Arguments onVariable {S} _ _ _ _.
Arguments onVariableDefinition {S} _ _.

Definition noDirective : DirectiveNode -> Action := fun _ => Continue.
Definition noVariable {S} : VariableNode -> Parent -> S -> S := fun _ _ s => s.
Definition noVariableDefinition : VariableDefinitionNode -> Action :=
  fun _ => Continue.

Section Array.
Context {A S : Type} (visitItem : A -> S -> option A * S).

(** The elements of an array are visited in order; an element whose visit
    yields [None] is spliced out. *)
Fixpoint visitArray (items : list A) (s : S) : list A * S :=
  match items with
  | [] => ([], s)
  | item :: rest =>
      let '(item', s1) := visitItem item s in
      let '(rest', s2) := visitArray rest s1 in
      (match item' with Some x => x :: rest' | None => rest' end, s2)
  end.
End Array.

Section Walk.
Context {S : Type} (visitor : Visitor S).

(** Keys of the value kinds: [ListValue: values], [ObjectValue: fields],
    [ObjectField: name, value]; the scalar kinds have none. No function of
    the visitor edits a value, so only the state is returned. *)
Fixpoint visitValue (parent : Parent) (v : ValueNode VariableNode) (s : S) : S :=
  match v with
  | VariableValue x => onVariable visitor x parent s
  | ListValue values => foldl (fun s v => visitValue ParentArray v s) s values
  | ObjectValue fields =>
      foldl (fun s f =>
               match f with
               | ObjectField _ v => visitValue (ParentNode KObjectField) v s
               end) s fields
  | _ => s
  end.

(** [Argument: name, value] *)
Definition visitArgument (a : ArgumentNode VariableNode) (s : S) : S :=
  match a with Argument _ v => visitValue (ParentNode KArgument) v s end.

Definition visitArguments (args : list (ArgumentNode VariableNode)) (s : S) : S :=
  foldl (fun s a => visitArgument a s) s args.

(** [Directive: name, arguments] *)
Definition visitDirective (d : DirectiveNode) (s : S) : option DirectiveNode * S :=
  match onDirective visitor d with
  | Delete => (None, s)
  | Continue => (Some d, visitArguments (directive_arguments d) s)
  end.

(** A constant directive has no variable below it: once it is kept there is
    nothing left for the visitor to do. *)
Definition visitConstDirective (d : ConstDirectiveNode) (s : S)
  : option ConstDirectiveNode * S :=
  match onDirective visitor (ofConstDirective d) with
  | Delete => (None, s)
  | Continue => (Some d, s)
  end.

(** [VariableDefinition: variable, type, defaultValue, directives] *)
Definition visitVariableDefinition (vd : VariableDefinitionNode) (s : S)
  : option VariableDefinitionNode * S :=
  match onVariableDefinition visitor vd with
  | Delete => (None, s)
  | Continue =>
      let s1 := onVariable visitor (vd_variable vd) (ParentNode KVariableDefinition) s in
      let '(directives, s2) := visitArray visitConstDirective (vd_directives vd) s1 in
      (Some (VariableDefinition (vd_variable vd) (vd_type vd)
               (vd_defaultValue vd) directives), s2)
  end.

(** [Field: alias, name, arguments, directives, selectionSet],
    [FragmentSpread: name, directives],
    [InlineFragment: typeCondition, directives, selectionSet],
    [SelectionSet: selections] *)
Fixpoint visitSelection (sel : SelectionNode) (s : S) : option SelectionNode * S :=
  match sel with
  | Field alias name args directives selectionSet =>
      let s1 := visitArguments args s in
      let '(directives', s2) := visitArray visitDirective directives s1 in
      let '(selectionSet', s3) :=
        match selectionSet with
        | None => (None, s2)
        | Some set => let '(set', s') := visitSelectionSet set s2 in (Some set', s')
        end in
      (Some (Field alias name args directives' selectionSet'), s3)
  | FragmentSpread name directives =>
      let '(directives', s1) := visitArray visitDirective directives s in
      (Some (FragmentSpread name directives'), s1)
  | InlineFragment typeCondition directives selectionSet =>
      let '(directives', s1) := visitArray visitDirective directives s in
      let '(selectionSet', s2) := visitSelectionSet selectionSet s1 in
      (Some (InlineFragment typeCondition directives' selectionSet'), s2)
  end
with visitSelectionSet (set : SelectionSetNode) (s : S) : SelectionSetNode * S :=
  match set with
  | SelectionSet selections =>
      let '(selections', s1) := visitArray visitSelection selections s in
      (SelectionSet selections', s1)
  end.

(** [OperationDefinition: name, variableDefinitions, directives, selectionSet] *)
Definition visitOperationDefinition (d : OperationDefinitionNode) (s : S)
  : OperationDefinitionNode * S :=
  let '(variableDefinitions, s1) :=
    visitArray visitVariableDefinition (op_variableDefinitions d) s in
  let '(directives, s2) := visitArray visitDirective (op_directives d) s1 in
  let '(selectionSet, s3) := visitSelectionSet (op_selectionSet d) s2 in
  (OperationDefinition (op_operation d) (op_name d) variableDefinitions
     directives selectionSet, s3).

(** [FragmentDefinition: name, variableDefinitions, typeCondition,
    directives, selectionSet] *)
Definition visitFragmentDefinition (d : FragmentDefinitionNode) (s : S)
  : FragmentDefinitionNode * S :=
  let '(variableDefinitions, s1) :=
    visitArray visitVariableDefinition (frag_variableDefinitions d) s in
  let '(directives, s2) := visitArray visitDirective (frag_directives d) s1 in
  let '(selectionSet, s3) := visitSelectionSet (frag_selectionSet d) s2 in
  (FragmentDefinition (frag_name d) variableDefinitions (frag_typeCondition d)
     directives selectionSet, s3).

Definition visitDefinition (d : DefinitionNode) (s : S) : option DefinitionNode * S :=
  match d with
  | Operation o => let '(o', s') := visitOperationDefinition o s in (Some (Operation o'), s')
  | Fragment f => let '(f', s') := visitFragmentDefinition f s in (Some (Fragment f'), s')
  end.

(** [Document: definitions] *)
Definition visit (root : DocumentNode) (s : S) : DocumentNode * S :=
  let '(definitions', s') := visitArray visitDefinition (definitions root) s in
  (Document definitions', s').

End Walk.

End Visit.

Import Visit.

(** ** The scrubber *)

(** The schema, as far as the generators consult it: its three root types
    and the lookup of a type by name; absent types are [None]. *)
Record GraphQLNamedType := NamedTypeOf { type_name : string }.

Record GraphQLSchema := {
  getQueryType : option GraphQLNamedType;
  getMutationType : option GraphQLNamedType;
  getSubscriptionType : option GraphQLNamedType;
  getType : string -> option GraphQLNamedType
}.

(** The members of [Config] that the scrubber and the typescript generator
    use. *)
Record Config := {
  isInternalDirective : DirectiveNode -> bool;
  schema : GraphQLSchema;
  internalTypeDefinitionFile : string;
  internalTypeDefinitionFileName : string;
  typeIndexPath : string;
  artifactTypePath : DocumentNode -> string
}.

(** Before the document can be printed, strip all references to internal
    directives and all variables only used by internal directives. The
    generator calls [scrubSelection] on the [document] of a collected
    document, a [DocumentNode]; the root is then never deleted. *)
Definition scrubSelection (config : Config) (document : DocumentNode)
  : DocumentNode :=
  let usedVariableNames : gset string := ∅ in
  let '(documentWithoutInternalDirectives, usedVariableNames) :=
    visit
      {| onDirective node :=
           (* if the directive is one of the internal ones, remove it *)
           if isInternalDirective config node then Delete else Continue;
         onVariable node parent used :=
           let variableIsBeingDefined :=
             match parent with
             | ParentNode KVariableDefinition => true
             | _ => false
             end in
           if negb variableIsBeingDefined
           then {[ value (variable_name node) ]} ∪ used
           else used;
         onVariableDefinition := noVariableDefinition |}
      document usedVariableNames in
  fst (visit
         {| onDirective := noDirective;
            onVariable := noVariable;
            onVariableDefinition variableDefinitionNode :=
              let name := value (variable_name (vd_variable variableDefinitionNode)) in
              if negb (bool_decide (name ∈ usedVariableNames))
              then Delete else Continue |}
         documentWithoutInternalDirectives tt).

(** ** The generated typescript programs

    The syntax trees built with recast's [AST] builders, as far as the
    generator uses them. An identifier is its name, a string literal its
    text. *)

Module TS.

Inductive TSType : Type :=
| tsTypeReference (typeName : string)
| tsNullKeyword
| tsUndefinedKeyword
| tsUnionType (types : list TSType)
| tsTypeLiteral (members : list TSPropertySignature)
| tsLiteralType (booleanLiteral : bool)
with TSPropertySignature : Type :=
| PropertySignature (key : string) (typeAnnotation : TSType)
                    (optional : bool) (readonly : bool).

(** [AST.tsPropertySignature(key, typeAnnotation, optional)]; the builder's
    [optional] defaults to [false], and a fresh signature is not
    read-only. *)
Definition tsPropertySignature (key : string) (typeAnnotation : TSType)
    (optional : bool) : TSPropertySignature :=
  PropertySignature key typeAnnotation optional false.

Record TSTypeAliasDeclaration := tsTypeAliasDeclaration {
  id : string;
  typeAnnotation : TSType
}.

Inductive Statement : Type :=
| importDeclaration (specifiers : list string) (source : string)
                    (importKind : string)
| exportNamedDeclaration (declaration : TSTypeAliasDeclaration)
| exportAllDeclaration (source : string).

(** [AST.program(body)] *)
Abbreviation Program := (list Statement).

(** Modelled from the spec: [readonlyProperty] is imported from [./types],
    which is not among the sources; the specification calls the fields it
    wraps read-only, so it sets the [readonly] flag of the signature. *)
Definition readonlyProperty (prop : TSPropertySignature) : TSPropertySignature :=
  match prop with
  | PropertySignature key typeAnnotation optional _ =>
      PropertySignature key typeAnnotation optional true
  end.

(** The type that a program exports under a name, if any. *)
Fixpoint exportedType (name : string) (program : Program) : option TSType :=
  match program with
  | [] => None
  | exportNamedDeclaration declaration :: rest =>
      if bool_decide (id declaration = name)
      then Some (typeAnnotation declaration)
      else exportedType name rest
  | _ :: rest => exportedType name rest
  end.

(** The names that a program imports. *)
Definition importedNames (program : Program) : list string :=
  flat_map (fun statement =>
              match statement with
              | importDeclaration specifiers _ _ => specifiers
              | _ => []
              end) program.

End TS.

Import TS.

(** ** Exceptions *)

Inductive exn :=
| Error (message : string)   (* throw new Error(message) *)
| TypeError.                 (* reading a property of undefined *)

Inductive result (A : Type) : Type :=
| Ok (a : A)
| Throw (e : exn).
Arguments Ok {A} _.
Arguments Throw {A} _.

#[global] Instance result_ret : MRet result := fun A a => Ok a.
#[global] Instance result_bind : MBind result :=
  fun A B k r =>
    match r with
    | Ok a => k a
    | Throw e => Throw e
    end.

(** [docs.map(f)] where [f] may throw: the first failure, in the order of
    the list, is the one reported. *)
Fixpoint mapM {A B} (f : A -> result B) (l : list A) : result (list B) :=
  match l with
  | [] => Ok []
  | x :: rest =>
      y ← f x;
      ys ← mapM f rest;
      Ok (y :: ys)
  end.

(** ** The typescript generator *)

Module Generator.

(** [String.prototype.toUpperCase] on one ASCII character. *)
Definition toUpperCase (c : ascii) : ascii :=
  let n := nat_of_ascii c in
  if (97 <=? n) && (n <=? 122) then ascii_of_nat (n - 32) else c.

(** [s[0].toUpperCase() + s.slice(1)], for a non-empty [s]. *)
Definition capitalize (s : string) : string :=
  match s with
  | EmptyString => EmptyString
  | String c rest => String (toUpperCase c) rest
  end.

(** An [OperationTypeNode] is one of three strings. *)
Definition operationText (operation : OperationTypeNode) : string :=
  match operation with
  | query => "query"
  | mutation => "mutation"
  | subscription => "subscription"
  end.

Definition fragmentKey : string := "$fragments".

Definition internalTypeImport (config : Config) (identifier : string) : Statement :=
  importDeclaration [identifier]
    ("./" +:+ internalTypeDefinitionFileName config) "type".

Definition generateOperationTypeDefs (config : Config)
    (definition : OperationDefinitionNode) : result Program :=
  let program : Program := [] in
  (* definition.name!.value *)
  match op_name definition with
  | None => Throw TypeError
  | Some name =>
  (* the name of the types we will define *)
  let inputTypeName := value name +:+ "$input" in
  let shapeTypeName := value name +:+ "$result" in
  let afterLoadTypeName := value name +:+ "$afterLoad" in
  (* look up the root type of the document *)
  let operation := op_operation definition in
  let type :=
    match operation with
    | query => getQueryType (schema config)
    | mutation => getMutationType (schema config)
    | subscription => getSubscriptionType (schema config)
    end in
  match type with
  | None => Throw (Error "Could not find root type for document")
  | Some _ =>
  let hasInputs := 0 <? length (op_variableDefinitions definition) in
  (* the type defining the shape of the query *)
  let shapeType := value name +:+ capitalize (operationText operation) in
  let program := program ++ [internalTypeImport config shapeType] in
  (* if we have inputs, we'll want to import the input shape *)
  let program :=
    if hasInputs then
      let inputType := shapeType +:+ "Variables" in
      let program := program ++ [internalTypeImport config inputType] in
      program ++
      [exportNamedDeclaration
         (tsTypeAliasDeclaration inputTypeName (tsTypeReference inputType))]
    else program in
  let program :=
    program ++
    [ (* the root type named after the document that links the input and
         result types *)
      exportNamedDeclaration
        (tsTypeAliasDeclaration (value name)
           (tsTypeLiteral
              [ readonlyProperty
                  (tsPropertySignature "input"
                     (if hasInputs then tsTypeReference inputTypeName
                      else tsNullKeyword) false);
                readonlyProperty
                  (tsPropertySignature "result"
                     (match operation with
                      | mutation => tsTypeReference shapeTypeName
                      | _ => tsUnionType [tsTypeReference shapeTypeName;
                                          tsUndefinedKeyword]
                      end) false) ]));
      (* export the type that describes the result *)
      exportNamedDeclaration
        (tsTypeAliasDeclaration shapeTypeName (tsTypeReference shapeType)) ] in
  (* generate type for the afterload function *)
  let properties :=
    [ readonlyProperty
        (tsPropertySignature "data"
           (tsTypeLiteral
              [ readonlyProperty
                  (tsPropertySignature (value name)
                     (tsTypeReference shapeTypeName) false) ]) false) ] in
  let properties :=
    if hasInputs then
      (* properties.splice(0, 0, ...) *)
      readonlyProperty
        (tsPropertySignature "input"
           (tsTypeLiteral
              [ readonlyProperty
                  (tsPropertySignature (value name)
                     (tsTypeReference inputTypeName) false) ]) false)
      :: properties
    else properties in
  let program :=
    match operation with
    | query =>
        program ++
        [exportNamedDeclaration
           (tsTypeAliasDeclaration afterLoadTypeName (tsTypeLiteral properties))]
    | _ => program
    end in
  Ok program
  end
  end.

Definition generateFragmentTypeDefs (config : Config)
    (definition : FragmentDefinitionNode) : result Program :=
  let program : Program := [] in
  (* the name of the prop type *)
  let propTypeName := value (frag_name definition) in
  (* the name of the shape type *)
  let shapeTypeName := value (frag_name definition) +:+ "$data" in
  (* look up the root type of the document *)
  let type :=
    getType (schema config)
      (value (namedType_name (frag_typeCondition definition))) in
  match type with
  | None => Throw (Error "Should not get here")
  | Some _ =>
  let internalType := value (frag_name definition) +:+ "Fragment" in
  (* the first thing we need to do is import the corresponding type from
     the internal file *)
  let program := program ++ [internalTypeImport config internalType] in
  let program :=
    program ++
    [ exportNamedDeclaration
        (tsTypeAliasDeclaration propTypeName
           (tsTypeLiteral
              [ readonlyProperty
                  (tsPropertySignature "shape"
                     (tsTypeReference shapeTypeName) true);
                readonlyProperty
                  (tsPropertySignature fragmentKey
                     (tsTypeLiteral
                        [ tsPropertySignature propTypeName
                            (tsLiteralType true) false ]) false) ]));
      (* export the type that describes the fragments response data *)
      exportNamedDeclaration
        (tsTypeAliasDeclaration shapeTypeName (tsTypeReference internalType)) ] in
  Ok program
  end.

End Generator.

(** ** The index and the orchestrator *)

Module Index.

(** [[^/.]] *)
Definition isSegmentChar (c : ascii) : bool :=
  negb (bool_decide (c = "/"%char)) && negb (bool_decide (c = "."%char)).

(** The longest prefix of characters satisfying [p], and the rest. *)
Fixpoint span (p : ascii -> bool) (l : list ascii) : list ascii * list ascii :=
  match l with
  | c :: rest =>
      if p c then let '(run, tail) := span p rest in (c :: run, tail)
      else ([], l)
  | [] => ([], [])
  end.

(** A match of [\.[^/.]+\.[^/.]+$], read from the end of the text: a
    non-empty run of [[^/.]], a dot, a non-empty run of [[^/.]], a dot.
    The argument is the text reversed; the result is what is in front of
    the match, reversed. The match, when there is one, is unique: neither
    run can hold a dot. *)
Definition matchDualExtension (reversed : list ascii) : option (list ascii) :=
  let '(second, tail) := span isSegmentChar reversed in
  match second, tail with
  | _ :: _, "."%char :: tail =>
      let '(first, tail) := span isSegmentChar tail in
      match first, tail with
      | _ :: _, "."%char :: front => Some front
      | _, _ => None
      end
  | _, _ => None
  end.

(** [text.replace(/\.[^/.]+\.[^/.]+$/, '')] *)
Definition removeDualExtension (text : string) : string :=
  match matchDualExtension (rev (String.list_ascii_of_string text)) with
  | Some front => String.string_of_list_ascii (rev front)
  | None => text
  end.

(** A non-empty text of characters other than [/] and [.]. *)
Definition isSegment (text : string) : bool :=
  match String.list_ascii_of_string text with
  | [] => false
  | chars => forallb isSegmentChar chars
  end.

End Index.

Import Index.

Module Orchestrator.
Import Generator.

(** The members of [CollectedGraphQLDocument] that the generator reads. *)
Record CollectedGraphQLDocument := {
  name : string;
  document : DocumentNode;
  originalDocument : DocumentNode;
  generateStore : bool;
  generateArtifact : bool
}.

(** What is written to a file: a text, or the text that [recast.print]
    makes of a program. *)
Inductive FileContent :=
| Text (text : string)
| Printed (program : Program).

(** [def.name?.value] *)
Definition definitionName (def : DefinitionNode) : option string :=
  match def with
  | Operation o => value <$> op_name o
  | Fragment f => Some (value (frag_name f))
  end.

Section Collaborators.
(** [codegen] of [@graphql-codegen/core], and [relative] and [resolve] of
    node's [path]. *)
Context (codegen : list DocumentNode -> GraphQLSchema -> result string).
Context (relative : string -> string -> string).
Context (resolve : string -> string -> string).

(** The index file in the runtime root that exports the types. *)
Definition typeIndex (config : Config) (typePaths : list string) : Program :=
  map (fun typePath =>
         exportAllDeclaration
           ("./" +:+
            (* remove the .d.ts from the end of the path *)
            removeDualExtension
              (relative (resolve (typeIndexPath config) "..") typePath)))
    typePaths
  ++ [ exportAllDeclaration "./runtime";
       exportAllDeclaration "./stores" ].

(** The function mapped over [docs]: the file written for one document, if
    it gets one. Every definition of [DefinitionNode] is an operation or a
    fragment, so the search is by name. When no definition is found,
    [generateFragmentTypeDefs] is called on [undefined] and reading its
    [name] throws. *)
Definition generateDocumentTypes (config : Config)
    (doc : CollectedGraphQLDocument) : result (option (string * FileContent)) :=
  if negb (generateArtifact doc) then Ok None
  else
    (* the place to put the artifact's type definition *)
    let typeDefPath := artifactTypePath config (originalDocument doc) in
    let definition :=
      List.find (fun def => bool_decide (definitionName def = Some (name doc)))
        (definitions (originalDocument doc)) in
    program ←
      match definition with
      | Some (Operation definition) =>
          (* treat it as an operation document *)
          generateOperationTypeDefs config definition
      | Some (Fragment definition) =>
          (* treat it as a fragment document *)
          generateFragmentTypeDefs config definition
      | None => Throw TypeError
      end;
    Ok (Some (typeDefPath, Printed program)).

(** The files written by a run, in the order in which the documents are
    given; a run that throws is [Throw]. *)
Definition typescriptGenerator (config : Config)
    (docs : list CollectedGraphQLDocument)
  : result (list (string * FileContent)) :=
  typeDefinitionsFile ←
    codegen
      (map (fun doc => scrubSelection config (document doc))
         (filter (fun doc => generateStore doc = true) docs))
      (schema config);
  let internal := (internalTypeDefinitionFile config, Text typeDefinitionsFile) in
  written ← mapM (generateDocumentTypes config) docs;
  let written := omap (fun file => file) written in
  (* build up a list of paths we have types in (to export from index.d.ts) *)
  let typePaths := map fst written in
  Ok (internal :: written ++
      [(typeIndexPath config, Printed (typeIndex config typePaths))]).

End Collaborators.

End Orchestrator.

Import Generator Orchestrator.

(** ** What a document contains

    The directive nodes, the variable definitions and the variable
    references (the [Variable] nodes in value position, which are all the
    [Variable] nodes but the ones being defined) of a document. *)

Module Contents.

(** *** Directives *)

Definition directivesOfVariableDefinition (vd : VariableDefinitionNode)
  : list DirectiveNode :=
  map ofConstDirective (vd_directives vd).

Fixpoint directivesOfSelection (sel : SelectionNode) : list DirectiveNode :=
  match sel with
  | Field _ _ _ directives selectionSet =>
      directives ++
      match selectionSet with
      | None => []
      | Some set => directivesOfSelectionSet set
      end
  | FragmentSpread _ directives => directives
  | InlineFragment _ directives set => directives ++ directivesOfSelectionSet set
  end
with directivesOfSelectionSet (set : SelectionSetNode) : list DirectiveNode :=
  match set with
  | SelectionSet selections => flat_map directivesOfSelection selections
  end.

Definition directivesOfDefinition (d : DefinitionNode) : list DirectiveNode :=
  match d with
  | Operation o =>
      flat_map directivesOfVariableDefinition (op_variableDefinitions o) ++
      op_directives o ++ directivesOfSelectionSet (op_selectionSet o)
  | Fragment f =>
      flat_map directivesOfVariableDefinition (frag_variableDefinitions f) ++
      frag_directives f ++ directivesOfSelectionSet (frag_selectionSet f)
  end.

Definition directivesOf (D : DocumentNode) : list DirectiveNode :=
  flat_map directivesOfDefinition (definitions D).

(** *** Variable definitions *)

Definition variableDefinitionsOfDefinition (d : DefinitionNode)
  : list VariableDefinitionNode :=
  match d with
  | Operation o => op_variableDefinitions o
  | Fragment f => frag_variableDefinitions f
  end.

Definition variableDefinitionsOf (D : DocumentNode) : list VariableDefinitionNode :=
  flat_map variableDefinitionsOfDefinition (definitions D).

Definition definedName (vd : VariableDefinitionNode) : string :=
  value (variable_name (vd_variable vd)).

(** *** Variable references *)

Fixpoint variablesOfValue (v : ValueNode VariableNode) : list VariableNode :=
  match v with
  | VariableValue x => [x]
  | ListValue values => flat_map variablesOfValue values
  | ObjectValue fields =>
      flat_map (fun f => match f with ObjectField _ v => variablesOfValue v end)
        fields
  | _ => []
  end.

Definition variablesOfArgument (a : ArgumentNode VariableNode) : list VariableNode :=
  match a with Argument _ v => variablesOfValue v end.

Section Outside.
(** The references that are not below a directive satisfying [skip]. *)
Context (skip : DirectiveNode -> bool).

Definition referencesOfDirective (d : DirectiveNode) : list VariableNode :=
  if skip d then [] else flat_map variablesOfArgument (directive_arguments d).

Fixpoint referencesOfSelection (sel : SelectionNode) : list VariableNode :=
  match sel with
  | Field _ _ args directives selectionSet =>
      flat_map variablesOfArgument args ++
      flat_map referencesOfDirective directives ++
      match selectionSet with
      | None => []
      | Some set => referencesOfSelectionSet set
      end
  | FragmentSpread _ directives => flat_map referencesOfDirective directives
  | InlineFragment _ directives set =>
      flat_map referencesOfDirective directives ++ referencesOfSelectionSet set
  end
with referencesOfSelectionSet (set : SelectionSetNode) : list VariableNode :=
  match set with
  | SelectionSet selections => flat_map referencesOfSelection selections
  end.

(** The default value and the directives of a variable definition are
    constant: a definition holds no reference. *)
Definition referencesOfDefinition (d : DefinitionNode) : list VariableNode :=
  match d with
  | Operation o =>
      flat_map referencesOfDirective (op_directives o) ++
      referencesOfSelectionSet (op_selectionSet o)
  | Fragment f =>
      flat_map referencesOfDirective (frag_directives f) ++
      referencesOfSelectionSet (frag_selectionSet f)
  end.

Definition referencesOutside (D : DocumentNode) : list VariableNode :=
  flat_map referencesOfDefinition (definitions D).

End Outside.

(** All the references of a document. *)
Definition variableReferences (D : DocumentNode) : list VariableNode :=
  referencesOutside (fun _ => false) D.

(** The references of a document that are not below an internal directive. *)
Definition retainedReferences (config : Config) (D : DocumentNode)
  : list VariableNode :=
  referencesOutside (isInternalDirective config) D.

Definition referencedName (v : VariableNode) : string := value (variable_name v).

End Contents.

Import Contents.

(** ** Notions used in the statements *)

(** The set of names of a list of references. *)
Definition namesOf (l : list VariableNode) : gset string :=
  list_to_set (map referencedName l).

(** The directives the visitor deletes. *)
Definition deletes {S} (visitor : Visitor S) (d : DirectiveNode) : bool :=
  match onDirective visitor d with Delete => true | Continue => false end.

(** What is left of a variable definition, which does not depend on the
    state. *)
Definition keepVariableDefinition {S} (visitor : Visitor S)
    (vd : VariableDefinitionNode) : option VariableDefinitionNode :=
  match onVariableDefinition visitor vd with
  | Delete => None
  | Continue =>
      Some (VariableDefinition (vd_variable vd) (vd_type vd) (vd_defaultValue vd)
              (filter (fun d => deletes visitor (ofConstDirective d) = false)
                 (vd_directives vd)))
  end.

(** The visitor of the first pass of [scrubSelection], by name. *)
Definition elision (config : Config) : Visitor (gset string) :=
  {| onDirective node :=
       if isInternalDirective config node then Delete else Continue;
     onVariable node parent used :=
       let variableIsBeingDefined :=
         match parent with
         | ParentNode KVariableDefinition => true
         | _ => false
         end in
       if negb variableIsBeingDefined
       then {[ value (variable_name node) ]} ∪ used
       else used;
     onVariableDefinition := noVariableDefinition |}.

(** The visitor of the second pass of [scrubSelection], by name. *)
Definition pruning (usedVariableNames : gset string) : Visitor unit :=
  {| onDirective := noDirective;
     onVariable := noVariable;
     onVariableDefinition variableDefinitionNode :=
       let name := value (variable_name (vd_variable variableDefinitionNode)) in
       if negb (bool_decide (name ∈ usedVariableNames))
       then Delete else Continue |}.

(** A variable definition without its internal directives: what the first
    pass leaves of it. *)
Definition withoutInternalDirectives (config : Config)
    (vd : VariableDefinitionNode) : VariableDefinitionNode :=
  VariableDefinition (vd_variable vd) (vd_type vd) (vd_defaultValue vd)
    (filter (fun d => isInternalDirective config (ofConstDirective d) = false)
       (vd_directives vd)).

(** A definition is referenced in a list of references when one of them
    bears its name. *)
Definition referencedIn (refs : list VariableNode) (vd : VariableDefinitionNode)
  : Prop :=
  Exists (fun v => referencedName v = definedName vd) refs.

#[global] Instance referencedIn_dec refs vd : Decision (referencedIn refs vd).
Proof. unfold referencedIn. apply _. Defined.

(** The root type that the schema declares for a kind of operation. *)
Definition rootTypeFor (schema : GraphQLSchema) (operation : OperationTypeNode)
  : option GraphQLNamedType :=
  match operation with
  | query => getQueryType schema
  | mutation => getMutationType schema
  | subscription => getSubscriptionType schema
  end.

#[global] Instance OperationTypeNode_eq_dec : EqDecision OperationTypeNode.
Proof. solve_decision. Defined.

(** [haystack.includes(needle)] *)
Fixpoint includes (haystack needle : string) : bool :=
  String.prefix needle haystack ||
  match haystack with
  | EmptyString => false
  | String _ rest => includes rest needle
  end.

(** The definition that the orchestrator finds for a collected document. *)
Definition findDefinition (doc : CollectedGraphQLDocument) : option DefinitionNode :=
  List.find (fun def => bool_decide (definitionName def = Some (name doc)))
    (definitions (originalDocument doc)).

(** The synthesis for a document fails with [message] on resolving against
    the schema: the root type of the operation, or the type condition of
    the fragment, is missing. *)
Definition schemaResolutionFails (config : Config)
    (doc : CollectedGraphQLDocument) (message : string) : Prop :=
  match findDefinition doc with
  | Some (Operation definition) =>
      rootTypeFor (schema config) (op_operation definition) = None /\
      message = "Could not find root type for document"
  | Some (Fragment definition) =>
      getType (schema config)
        (value (namedType_name (frag_typeCondition definition))) = None /\
      message = "Should not get here"
  | None => False
  end.

(** ** The documents of the specification's examples *)

Module Examples.

(** The directive [@internal] is the internal one. *)
Definition queryOnlySchema : GraphQLSchema :=
  {| getQueryType := Some (NamedTypeOf "Query");
     getMutationType := None;
     getSubscriptionType := None;
     getType name :=
       if bool_decide (name = "Query") then Some (NamedTypeOf "Query")
       else if bool_decide (name = "User") then Some (NamedTypeOf "User")
       else None |}.

Definition internalOnly : Config :=
  {| isInternalDirective d := bool_decide (value (directive_name d) = "internal");
     schema := queryOnlySchema;
     internalTypeDefinitionFile := "$houdini/graphql/generated.ts";
     internalTypeDefinitionFileName := "generated";
     typeIndexPath := "$houdini/index.d.ts";
     artifactTypePath _ := "$houdini/artifacts/Q.d.ts" |}.

(** [$id: ID!] *)
Definition idDefinition : VariableDefinitionNode :=
  VariableDefinition (Var (Name "id"))
    (NonNullType (TypeNamed (NamedType (Name "ID")))) None [].

Definition queryQ (variableDefinitions : list VariableDefinitionNode)
    (selections : list SelectionNode) : DocumentNode :=
  Document [Operation (OperationDefinition query (Some (Name "Q"))
                         variableDefinitions [] (SelectionSet selections))].

(** [query Q($id: ID!) { field @internal(arg: $id) }] *)
Definition onlyInternalUse : DocumentNode :=
  queryQ [idDefinition]
    [Field None (Name "field") []
       [Directive (Name "internal")
          [Argument (Name "arg") (VariableValue (Var (Name "id")))]]
       None].

(** [query Q { field }] *)
Definition onlyInternalUse_scrubbed : DocumentNode :=
  queryQ [] [Field None (Name "field") [] [] None].

(** [query Q($id: ID!) { node(id: $id) @internal }] *)
Definition retainedUse : DocumentNode :=
  queryQ [idDefinition]
    [Field None (Name "node")
       [Argument (Name "id") (VariableValue (Var (Name "id")))]
       [Directive (Name "internal") []]
       None].

(** [query Q($id: ID!) { node(id: $id) }] *)
Definition retainedUse_scrubbed : DocumentNode :=
  queryQ [idDefinition]
    [Field None (Name "node")
       [Argument (Name "id") (VariableValue (Var (Name "id")))] [] None].

(** [query Q($id: ID!) { node(id: $id) @internal(arg: $id) }] *)
Definition bothUses : DocumentNode :=
  queryQ [idDefinition]
    [Field None (Name "node")
       [Argument (Name "id") (VariableValue (Var (Name "id")))]
       [Directive (Name "internal")
          [Argument (Name "arg") (VariableValue (Var (Name "id")))]]
       None].

(** [query Q($id: ID!) { field }]: no directive at all, and a variable
    that nothing uses. *)
Definition unusedVariable : DocumentNode :=
  queryQ [idDefinition] [Field None (Name "field") [] [] None].

(** [query Q($id: ID!) { node(id: $id) @include(if: true) }] *)
Definition nothingInternal : DocumentNode :=
  queryQ [idDefinition]
    [Field None (Name "node")
       [Argument (Name "id") (VariableValue (Var (Name "id")))]
       [Directive (Name "include") [Argument (Name "if") (BooleanValue true)]]
       None].

End Examples.


Module GeneratorExamples.

(** [fragment UserInfo on User { ... }] *)
Definition userInfo : FragmentDefinitionNode :=
  FragmentDefinition (Name "UserInfo") [] (NamedType (Name "User")) []
    (SelectionSet [Field None (Name "id") [] [] None]).

(** [fragment Ghost on Nothing { ... }]: the schema has no type [Nothing]. *)
Definition ghost : FragmentDefinitionNode :=
  FragmentDefinition (Name "Ghost") [] (NamedType (Name "Nothing")) []
    (SelectionSet [Field None (Name "id") [] [] None]).

(** [query Hello($id: ID!) { ... }] *)
Definition hello : OperationDefinitionNode :=
  OperationDefinition query (Some (Name "Hello")) [Examples.idDefinition] []
    (SelectionSet [Field None (Name "node") [] [] None]).

(** [mutation <name> { ... }]: the schema of the examples declares no
    mutation type. *)
Definition doThing (name : string) : OperationDefinitionNode :=
  OperationDefinition mutation (Some (Name name)) [] []
    (SelectionSet [Field None (Name "doThing") [] [] None]).

(** A configuration whose schema declares the three root types. *)
Definition withAllRoots : Config :=
  {| isInternalDirective := isInternalDirective Examples.internalOnly;
     schema :=
       {| getQueryType := Some (NamedTypeOf "Query");
          getMutationType := Some (NamedTypeOf "Mutation");
          getSubscriptionType := Some (NamedTypeOf "Subscription");
          getType := getType Examples.queryOnlySchema |};
     internalTypeDefinitionFile := "$houdini/graphql/generated.ts";
     internalTypeDefinitionFileName := "generated";
     typeIndexPath := "$houdini/index.d.ts";
     artifactTypePath _ := "$houdini/artifacts/Q.d.ts" |}.

Definition collected (name : string) (definition : DefinitionNode)
  : CollectedGraphQLDocument :=
  {| name := name;
     document := Document [definition];
     originalDocument := Document [definition];
     generateStore := true;
     generateArtifact := true |}.

(** Collaborators for the examples: a shape generator that succeeds, and
    paths that are already relative to the index. *)
Definition codegen (documents : list DocumentNode) (schema : GraphQLSchema)
  : result string := Ok "".
Definition relative (from to : string) : string := to.
Definition resolve (path segment : string) : string := path.

End GeneratorExamples.

(** ** Further notions *)

(** The directives of a definition outside its variable definitions: the
    ones on the operation or fragment itself and in its selection set. *)
Definition bodyDirectivesOfDefinition (d : DefinitionNode) : list DirectiveNode :=
  match d with
  | Operation o => op_directives o ++ directivesOfSelectionSet (op_selectionSet o)
  | Fragment f => frag_directives f ++ directivesOfSelectionSet (frag_selectionSet f)
  end.

Definition bodyDirectives (D : DocumentNode) : list DirectiveNode :=
  flat_map bodyDirectivesOfDefinition (definitions D).

(** What identifies a definition: its kind, its name, and the operation
    type or the type condition. *)
Inductive DefinitionHead :=
| OperationHead (operation : OperationTypeNode) (name : option NameNode)
| FragmentHead (name : NameNode) (typeCondition : NamedTypeNode).

Definition definitionHead (d : DefinitionNode) : DefinitionHead :=
  match d with
  | Operation o => OperationHead (op_operation o) (op_name o)
  | Fragment f => FragmentHead (frag_name f) (frag_typeCondition f)
  end.

(** A document that has no internal directive and no variable definition
    without a reference. *)
Definition isScrubbed (config : Config) (D : DocumentNode) : Prop :=
  Forall (fun d => isInternalDirective config d = false) (directivesOf D) /\
  Forall (referencedIn (variableReferences D)) (variableDefinitionsOf D).

(** The names under which a program exports a type. *)
Definition exportedNames (program : Program) : list string :=
  flat_map (fun statement =>
              match statement with
              | exportNamedDeclaration declaration => [id declaration]
              | _ => []
              end) program.

(** The names of the types that a type refers to. *)
Fixpoint referencedTypes (t : TSType) : list string :=
  match t with
  | tsTypeReference typeName => [typeName]
  | tsUnionType types => flat_map referencedTypes types
  | tsTypeLiteral members =>
      flat_map (fun member =>
                  match member with
                  | PropertySignature _ typeAnnotation _ _ =>
                      referencedTypes typeAnnotation
                  end) members
  | _ => []
  end.

Definition referencedByProgram (program : Program) : list string :=
  flat_map (fun statement =>
              match statement with
              | exportNamedDeclaration declaration =>
                  referencedTypes (typeAnnotation declaration)
              | _ => []
              end) program.

(** A statement of a type-definition file of a document: a type-only import
    from the internal type-definition file, or an exported type. *)
Definition isArtifactStatement (config : Config) (statement : Statement) : Prop :=
  match statement with
  | importDeclaration _ source importKind =>
      source = "./" +:+ internalTypeDefinitionFileName config /\
      importKind = "type"
  | exportNamedDeclaration _ => True
  | exportAllDeclaration _ => False
  end.

(** The kind of an operation as it is spelled in the name of its shape. *)
Definition shapeSuffix (operation : OperationTypeNode) : string :=
  match operation with
  | query => "Query"
  | mutation => "Mutation"
  | subscription => "Subscription"
  end.

(** The files of the documents that get an artifact, in order. *)
Definition artifactPaths (config : Config) (docs : list CollectedGraphQLDocument)
  : list string :=
  map (fun doc => artifactTypePath config (originalDocument doc))
    (filter (fun doc => generateArtifact doc = true) docs).

(** The result of a step of the run that went through. *)
Definition succeeds {A} (r : result A) : Prop :=
  match r with Ok _ => True | Throw _ => False end.

#[global] Instance isScrubbed_dec config D : Decision (isScrubbed config D).
Proof. unfold isScrubbed. apply _. Defined.

(** The documents handed to the shape generator: the documents flagged for
    a store, scrubbed. *)
Definition scrubbedDocuments (config : Config)
    (docs : list CollectedGraphQLDocument) : list DocumentNode :=
  map (fun doc => scrubSelection config (document doc))
    (filter (fun doc => generateStore doc = true) docs).

(** The synthesizer that the orchestrator calls on a definition. *)
Definition synthesize (config : Config) (definition : DefinitionNode)
  : result Program :=
  match definition with
  | Operation definition => generateOperationTypeDefs config definition
  | Fragment definition => generateFragmentTypeDefs config definition
  end.


(** A shape generator, for the examples, that refuses a document which is
    not scrubbed. *)
Definition strictCodegen (config : Config) (documents : list DocumentNode)
    (schema : GraphQLSchema) : result string :=
  if decide (Forall (isScrubbed config) documents) then Ok ""
  else Throw (Error "unknown directive").

(** ** Induction over values and selections *)

Section ValueInduction.
Context {V : Type} (P : ValueNode V -> Prop).
Hypothesis HVariable : forall x, P (VariableValue x).
Hypothesis HInt : forall s, P (IntValue s).
Hypothesis HFloat : forall s, P (FloatValue s).
Hypothesis HString : forall s b, P (StringValue s b).
Hypothesis HBoolean : forall b, P (BooleanValue b).
Hypothesis HNull : P NullValue.
Hypothesis HEnum : forall s, P (EnumValue s).
Hypothesis HList : forall values, Forall P values -> P (ListValue values).
Hypothesis HObject :
  forall fields,
    Forall (fun f => match f with ObjectField _ v => P v end) fields ->
    P (ObjectValue fields).

Fixpoint value_induction (v : ValueNode V) : P v :=
  match v with
  | VariableValue x => HVariable x
  | IntValue s => HInt s
  | FloatValue s => HFloat s
  | StringValue s b => HString s b
  | BooleanValue b => HBoolean b
  | NullValue => HNull
  | EnumValue s => HEnum s
  | ListValue values =>
      HList values
        ((fix all (l : list (ValueNode V)) : Forall P l :=
            match l with
            | [] => List.Forall_nil P
            | x :: l' => List.Forall_cons P x l' (value_induction x) (all l')
            end) values)
  | ObjectValue fields =>
      HObject fields
        ((fix all (l : list (ObjectFieldNode V))
            : Forall (fun f => match f with ObjectField _ v => P v end) l :=
            match l with
            | [] => List.Forall_nil _
            | f :: l' =>
                List.Forall_cons _ f l'
                  (match f return match f with ObjectField _ v => P v end with
                   | ObjectField _ v => value_induction v
                   end)
                  (all l')
            end) fields)
  end.
End ValueInduction.

Section SelectionInduction.
Context (P : SelectionNode -> Prop) (Q : SelectionSetNode -> Prop).
Hypothesis HField :
  forall alias name args directives selectionSet,
    (forall set, selectionSet = Some set -> Q set) ->
    P (Field alias name args directives selectionSet).
Hypothesis HSpread : forall name directives, P (FragmentSpread name directives).
Hypothesis HInline :
  forall typeCondition directives set,
    Q set -> P (InlineFragment typeCondition directives set).
Hypothesis HSet : forall selections, Forall P selections -> Q (SelectionSet selections).

Fixpoint selection_induction (sel : SelectionNode) : P sel :=
  match sel with
  | Field alias name args directives selectionSet =>
      HField alias name args directives selectionSet
        (match selectionSet
               return forall set, selectionSet = Some set -> Q set with
         | None => fun set E => match Some_ne_None _ (eq_sym E) with end
         | Some set0 =>
             fun set E =>
               eq_ind set0 Q (selectionSet_induction set0) set
                 (Some_inj _ _ E)
         end)
  | FragmentSpread name directives => HSpread name directives
  | InlineFragment typeCondition directives set =>
      HInline typeCondition directives set (selectionSet_induction set)
  end
with selectionSet_induction (set : SelectionSetNode) : Q set :=
  match set with
  | SelectionSet selections =>
      HSet selections
        ((fix all (l : list SelectionNode) : Forall P l :=
            match l with
            | [] => List.Forall_nil P
            | x :: l' => List.Forall_cons P x l' (selection_induction x) (all l')
            end) selections)
  end.
End SelectionInduction.

(** * Proofs *)

(** ** Lemmas on the visitor *)

Section ArrayLemmas.
Context {A S : Type} (f : A -> S -> option A * S).

Lemma visitArray_elem (l : list A) (s : S) (x' : A) :
  x' ∈ (visitArray f l s).1 -> exists x s0, x ∈ l /\ (f x s0).1 = Some x'.
Proof.
  revert s. induction l as [|a l IH]; intros s; simpl.
  - intros H. inversion H.
  - destruct (f a s) as [a' s1] eqn:Ea.
    destruct (visitArray f l s1) as [l' s2] eqn:El. simpl.
    assert (Hrest : x' ∈ l' -> exists x s0, x ∈ a :: l /\ (f x s0).1 = Some x').
    { intros Hin. destruct (IH s1) as (x & s0 & Hx & Hf); [by rewrite El|].
      exists x, s0. split; [by right|done]. }
    destruct a' as [y|]; [|done].
    intros [->|Hin]%elem_of_cons; [|by auto].
    exists a, s. split; [by left|by rewrite Ea].
Qed.

Lemma visitArray_id (l : list A) (s : S) :
  (forall x, x ∈ l -> forall s0, (f x s0).1 = Some x) ->
  (visitArray f l s).1 = l.
Proof.
  revert s. induction l as [|a l IH]; intros s H; simpl; [done|].
  pose proof (H a ltac:(by left) s) as Ha.
  destruct (f a s) as [a' s1]. simpl in Ha. subst a'.
  specialize (IH s1 ltac:(intros; apply H; by right)).
  destruct (visitArray f l s1) as [l' s2]. simpl in *. by subst.
Qed.

Lemma visitArray_flat_map {B} (h h' : A -> list B) (l : list A) (s : S) :
  (forall x, x ∈ l -> forall s0, from_option h [] (f x s0).1 = h' x) ->
  flat_map h (visitArray f l s).1 = flat_map h' l.
Proof.
  revert s. induction l as [|a l IH]; intros s H; simpl; [done|].
  pose proof (H a ltac:(by left) s) as Ha.
  destruct (f a s) as [a' s1]. simpl in Ha.
  specialize (IH s1 ltac:(intros; apply H; by right)).
  destruct (visitArray f l s1) as [l' s2]. simpl in *.
  rewrite <- Ha, <- IH. by destruct a'.
Qed.

Lemma visitArray_omap (g : A -> option A) (l : list A) (s : S) :
  (forall x, x ∈ l -> forall s0, (f x s0).1 = g x) ->
  (visitArray f l s).1 = omap g l.
Proof.
  revert s. induction l as [|a l IH]; intros s H; simpl; [done|].
  pose proof (H a ltac:(by left) s) as Ha.
  destruct (f a s) as [a' s1]. simpl in Ha.
  specialize (IH s1 ltac:(intros; apply H; by right)).
  destruct (visitArray f l s1) as [l' s2]. simpl in IH.
  subst l'. change (omap g (a :: l)) with
    (match g a with Some y => y :: omap g l | None => omap g l end).
  by rewrite <- Ha.
Qed.
End ArrayLemmas.

Lemma namesOf_app (l1 l2 : list VariableNode) :
  namesOf (l1 ++ l2) = namesOf l1 ∪ namesOf l2.
Proof. unfold namesOf. by rewrite map_app, list_to_set_app_L. Qed.

Lemma elem_of_namesOf (x : string) (l : list VariableNode) :
  x ∈ namesOf l <-> exists v, v ∈ l /\ referencedName v = x.
Proof.
  unfold namesOf. rewrite elem_of_list_to_set, list_elem_of_In, in_map_iff.
  split; intros (v & H1 & H2); exists v.
  - by rewrite list_elem_of_In.
  - by rewrite <- list_elem_of_In.
Qed.

Section ArrayState.
Context {A : Type}.

(** When every element only adds names to the set, so does the array. *)
Lemma visitArray_adds (f : A -> gset string -> option A * gset string)
    (r : A -> list VariableNode) (l : list A) (s : gset string) :
  (forall x, x ∈ l -> forall s0, (f x s0).2 = namesOf (r x) ∪ s0) ->
  (visitArray f l s).2 = namesOf (flat_map r l) ∪ s.
Proof.
  revert s. induction l as [|a l IH]; intros s H; simpl.
  - unfold namesOf. set_solver.
  - pose proof (H a ltac:(by left) s) as Ha.
    destruct (f a s) as [a' s1]. simpl in Ha.
    specialize (IH s1 ltac:(intros; apply H; by right)).
    destruct (visitArray f l s1) as [l' s2]. simpl in *.
    subst. rewrite namesOf_app. set_solver.
Qed.

Lemma foldl_adds (g : gset string -> A -> gset string)
    (r : A -> list VariableNode) (l : list A) (s : gset string) :
  Forall (fun x => forall s0, g s0 x = namesOf (r x) ∪ s0) l ->
  foldl g s l = namesOf (flat_map r l) ∪ s.
Proof.
  intros H. revert s. induction H as [|a l Ha _ IH]; intros s; simpl.
  - unfold namesOf. set_solver.
  - rewrite IH, Ha, namesOf_app. set_solver.
Qed.
End ArrayState.

Section WalkLemmas.
Context {S : Type} (visitor : Visitor S).

(** *** Unfolding equations *)

Lemma visitSelection_Field alias name args directives selectionSet s :
  visitSelection visitor (Field alias name args directives selectionSet) s =
  let r1 := visitArray (visitDirective visitor) directives
              (visitArguments visitor args s) in
  let r2 := match selectionSet with
            | None => (None, r1.2)
            | Some set =>
                let r := visitSelectionSet visitor set r1.2 in (Some r.1, r.2)
            end in
  (Some (Field alias name args r1.1 r2.1), r2.2).
Proof.
  simpl. destruct (visitArray _ directives _) as [ds s1]. simpl.
  destruct selectionSet as [set|]; [|done].
  by destruct (visitSelectionSet visitor set s1).
Qed.

Lemma visitSelection_FragmentSpread name directives s :
  visitSelection visitor (FragmentSpread name directives) s =
  let r1 := visitArray (visitDirective visitor) directives s in
  (Some (FragmentSpread name r1.1), r1.2).
Proof. simpl. by destruct (visitArray _ directives _). Qed.

Lemma visitSelection_InlineFragment typeCondition directives set s :
  visitSelection visitor (InlineFragment typeCondition directives set) s =
  let r1 := visitArray (visitDirective visitor) directives s in
  let r2 := visitSelectionSet visitor set r1.2 in
  (Some (InlineFragment typeCondition r1.1 r2.1), r2.2).
Proof.
  simpl. destruct (visitArray _ directives _) as [ds s1]. simpl.
  by destruct (visitSelectionSet visitor set s1).
Qed.

Lemma visitSelectionSet_eq selections s :
  visitSelectionSet visitor (SelectionSet selections) s =
  let r := visitArray (visitSelection visitor) selections s in
  (SelectionSet r.1, r.2).
Proof. simpl. by destruct (visitArray _ selections _). Qed.

Lemma visitVariableDefinition_eq vd s :
  visitVariableDefinition visitor vd s =
  match onVariableDefinition visitor vd with
  | Delete => (None, s)
  | Continue =>
      let r := visitArray (visitConstDirective visitor) (vd_directives vd)
                 (onVariable visitor (vd_variable vd)
                    (ParentNode KVariableDefinition) s) in
      (Some (VariableDefinition (vd_variable vd) (vd_type vd)
               (vd_defaultValue vd) r.1), r.2)
  end.
Proof.
  unfold visitVariableDefinition. destruct (onVariableDefinition visitor vd); [|done].
  by destruct (visitArray _ _ _).
Qed.

Lemma visitOperationDefinition_eq d s :
  visitOperationDefinition visitor d s =
  let r1 := visitArray (visitVariableDefinition visitor) (op_variableDefinitions d) s in
  let r2 := visitArray (visitDirective visitor) (op_directives d) r1.2 in
  let r3 := visitSelectionSet visitor (op_selectionSet d) r2.2 in
  (OperationDefinition (op_operation d) (op_name d) r1.1 r2.1 r3.1, r3.2).
Proof.
  unfold visitOperationDefinition.
  destruct (visitArray _ (op_variableDefinitions d) _) as [? s1]. simpl.
  destruct (visitArray _ (op_directives d) _) as [? s2]. simpl.
  by destruct (visitSelectionSet _ _ _).
Qed.

Lemma visitFragmentDefinition_eq d s :
  visitFragmentDefinition visitor d s =
  let r1 := visitArray (visitVariableDefinition visitor) (frag_variableDefinitions d) s in
  let r2 := visitArray (visitDirective visitor) (frag_directives d) r1.2 in
  let r3 := visitSelectionSet visitor (frag_selectionSet d) r2.2 in
  (FragmentDefinition (frag_name d) r1.1 (frag_typeCondition d) r2.1 r3.1, r3.2).
Proof.
  unfold visitFragmentDefinition.
  destruct (visitArray _ (frag_variableDefinitions d) _) as [? s1]. simpl.
  destruct (visitArray _ (frag_directives d) _) as [? s2]. simpl.
  by destruct (visitSelectionSet _ _ _).
Qed.

Lemma visitDefinition_eq d s :
  visitDefinition visitor d s =
  match d with
  | Operation o =>
      let r := visitOperationDefinition visitor o s in (Some (Operation r.1), r.2)
  | Fragment f =>
      let r := visitFragmentDefinition visitor f s in (Some (Fragment r.1), r.2)
  end.
Proof.
  destruct d as [o|f]; simpl.
  - by destruct (visitOperationDefinition visitor o s).
  - by destruct (visitFragmentDefinition visitor f s).
Qed.

Lemma visit_eq D s :
  visit visitor D s =
  let r := visitArray (visitDefinition visitor) (definitions D) s in
  (Document r.1, r.2).
Proof. unfold visit. by destruct (visitArray _ _ _). Qed.

(** *** Arrays of directives *)

Lemma visitDirective_fst d s :
  (visitDirective visitor d s).1 = if deletes visitor d then None else Some d.
Proof. unfold visitDirective, deletes. by destruct (onDirective visitor d). Qed.

Lemma visitConstDirective_fst d s :
  (visitConstDirective visitor d s).1 =
  if deletes visitor (ofConstDirective d) then None else Some d.
Proof.
  unfold visitConstDirective, deletes.
  by destruct (onDirective visitor (ofConstDirective d)).
Qed.

Lemma visitDirectives_fst ds s :
  (visitArray (visitDirective visitor) ds s).1 =
  filter (fun d => deletes visitor d = false) ds.
Proof.
  revert s. induction ds as [|d ds IH]; intros s; simpl; [done|].
  pose proof (visitDirective_fst d s) as Hd.
  destruct (visitDirective visitor d s) as [d' s1]. simpl in Hd.
  specialize (IH s1). destruct (visitArray _ ds s1) as [ds' s2]. simpl in *.
  subst. rewrite filter_cons. by destruct (deletes visitor d).
Qed.

Lemma visitConstDirectives_fst ds s :
  (visitArray (visitConstDirective visitor) ds s).1 =
  filter (fun d => deletes visitor (ofConstDirective d) = false) ds.
Proof.
  revert s. induction ds as [|d ds IH]; intros s; simpl; [done|].
  pose proof (visitConstDirective_fst d s) as Hd.
  destruct (visitConstDirective visitor d s) as [d' s1]. simpl in Hd.
  specialize (IH s1). destruct (visitArray _ ds s1) as [ds' s2]. simpl in *.
  subst. rewrite filter_cons. by destruct (deletes visitor (ofConstDirective d)).
Qed.

Lemma visitVariableDefinition_fst vd s :
  (visitVariableDefinition visitor vd s).1 = keepVariableDefinition visitor vd.
Proof.
  rewrite visitVariableDefinition_eq. unfold keepVariableDefinition.
  destruct (onVariableDefinition visitor vd); [|done].
  simpl. by rewrite visitConstDirectives_fst.
Qed.

Lemma visitVariableDefinitions_fst vds s :
  (visitArray (visitVariableDefinition visitor) vds s).1 =
  omap (keepVariableDefinition visitor) vds.
Proof. apply visitArray_omap. intros. apply visitVariableDefinition_fst. Qed.

End WalkLemmas.

Lemma selection_mutual_induction
    (P : SelectionNode -> Prop) (Q : SelectionSetNode -> Prop) :
  (forall alias name args directives selectionSet,
      (forall set, selectionSet = Some set -> Q set) ->
      P (Field alias name args directives selectionSet)) ->
  (forall name directives, P (FragmentSpread name directives)) ->
  (forall typeCondition directives set,
      Q set -> P (InlineFragment typeCondition directives set)) ->
  (forall selections, Forall P selections -> Q (SelectionSet selections)) ->
  (forall sel, P sel) /\ (forall set, Q set).
Proof.
  intros H1 H2 H3 H4. split.
  - by apply selection_induction with Q.
  - by apply selectionSet_induction with P.
Qed.

Lemma elem_of_flat_map {A B} (f : A -> list B) (l : list A) (y : B) :
  y ∈ flat_map f l <-> exists x, x ∈ l /\ y ∈ f x.
Proof.
  rewrite list_elem_of_In, in_flat_map.
  split; intros (x & H1 & H2); exists x; by rewrite ?list_elem_of_In in *.
Qed.

Lemma filter_all {A} (P : A -> Prop) `{forall x, Decision (P x)} (l : list A) :
  (forall x, x ∈ l -> P x) -> filter P l = l.
Proof.
  induction l as [|a l IH]; intros Hall; [done|].
  rewrite filter_cons, decide_True by (apply Hall; by left).
  f_equal. apply IH. intros. apply Hall. by right.
Qed.

Lemma omap_flat_map {A B C} (f : A -> list B) (g : B -> option C) (l : list A) :
  omap g (flat_map f l) = flat_map (fun x => omap g (f x)) l.
Proof. induction l as [|a l IH]; simpl; [done|]. by rewrite omap_app, IH. Qed.

Section WalkProperties.
Context {S : Type} (visitor : Visitor S).

(** *** The directives of the result are directives of the input that the
    visitor does not delete *)

Lemma visitSelection_directives :
  (forall sel s sel' d,
      (visitSelection visitor sel s).1 = Some sel' ->
      d ∈ directivesOfSelection sel' ->
      d ∈ directivesOfSelection sel /\ deletes visitor d = false) /\
  (forall set s d,
      d ∈ directivesOfSelectionSet (visitSelectionSet visitor set s).1 ->
      d ∈ directivesOfSelectionSet set /\ deletes visitor d = false).
Proof.
  apply selection_mutual_induction.
  - intros alias name args directives selectionSet IH s sel' d.
    rewrite visitSelection_Field. simpl. intros [= <-]. simpl.
    rewrite visitDirectives_fst, !elem_of_app, list_elem_of_filter.
    intros [[? ?]|Hd]; [by auto|].
    destruct selectionSet as [set|]; simpl in Hd; [|by inversion Hd].
    apply (IH set eq_refl) in Hd. destruct Hd. by auto.
  - intros name directives s sel' d.
    rewrite visitSelection_FragmentSpread. simpl. intros [= <-]. simpl.
    rewrite visitDirectives_fst, list_elem_of_filter. by intros [? ?].
  - intros typeCondition directives set IH s sel' d.
    rewrite visitSelection_InlineFragment. simpl. intros [= <-]. simpl.
    rewrite visitDirectives_fst, !elem_of_app, list_elem_of_filter.
    intros [[? ?]|Hd]; [by auto|].
    apply IH in Hd. destruct Hd. by auto.
  - intros selections IH s d.
    rewrite visitSelectionSet_eq. simpl.
    rewrite !elem_of_flat_map. intros (sel' & Hsel' & Hd).
    apply visitArray_elem in Hsel'. destruct Hsel' as (sel & s0 & Hsel & Hvisit).
    rewrite Forall_forall in IH.
    destruct (IH sel Hsel s0 sel' d Hvisit Hd) as [? ?].
    split; [|done]. by exists sel.
Qed.

Lemma keepVariableDefinition_directives vd vd' d :
  keepVariableDefinition visitor vd = Some vd' ->
  d ∈ directivesOfVariableDefinition vd' ->
  d ∈ directivesOfVariableDefinition vd /\ deletes visitor d = false.
Proof.
  unfold keepVariableDefinition, directivesOfVariableDefinition.
  destruct (onVariableDefinition visitor vd); [|done].
  intros [= <-]. simpl.
  rewrite !list_elem_of_In, !in_map_iff.
  intros (c & <- & Hc). rewrite <- list_elem_of_In, list_elem_of_filter in Hc.
  destruct Hc as [Hkeep Hc]. split; [|done].
  exists c. by rewrite <- list_elem_of_In.
Qed.

Lemma visitDefinition_directives def s def' d :
  (visitDefinition visitor def s).1 = Some def' ->
  d ∈ directivesOfDefinition def' ->
  d ∈ directivesOfDefinition def /\ deletes visitor d = false.
Proof.
  destruct visitSelection_directives as [_ Hset].
  rewrite visitDefinition_eq. destruct def as [o|f]; simpl; intros [= <-].
  - rewrite visitOperationDefinition_eq. simpl.
    rewrite visitVariableDefinitions_fst, visitDirectives_fst.
    rewrite !elem_of_app, list_elem_of_filter, !elem_of_flat_map.
    intros [(vd' & Hvd' & Hd)|[[? ?]|Hd]].
    + apply list_elem_of_omap in Hvd'. destruct Hvd' as (vd & Hvd & Hkeep).
      destruct (keepVariableDefinition_directives _ _ _ Hkeep Hd).
      split; [|done]. left. by exists vd.
    + by auto.
    + apply Hset in Hd. destruct Hd. by auto.
  - rewrite visitFragmentDefinition_eq. simpl.
    rewrite visitVariableDefinitions_fst, visitDirectives_fst.
    rewrite !elem_of_app, list_elem_of_filter, !elem_of_flat_map.
    intros [(vd' & Hvd' & Hd)|[[? ?]|Hd]].
    + apply list_elem_of_omap in Hvd'. destruct Hvd' as (vd & Hvd & Hkeep).
      destruct (keepVariableDefinition_directives _ _ _ Hkeep Hd).
      split; [|done]. left. by exists vd.
    + by auto.
    + apply Hset in Hd. destruct Hd. by auto.
Qed.

Lemma visit_directives D s d :
  d ∈ directivesOf (visit visitor D s).1 ->
  d ∈ directivesOf D /\ deletes visitor d = false.
Proof.
  rewrite visit_eq. unfold directivesOf. simpl.
  rewrite !elem_of_flat_map. intros (def' & Hdef' & Hd).
  apply visitArray_elem in Hdef'. destruct Hdef' as (def & s0 & Hdef & Hvisit).
  destruct (visitDefinition_directives def s0 def' d Hvisit Hd).
  split; [|done]. by exists def.
Qed.

End WalkProperties.

Section WalkIdentity.
Context {S : Type} (visitor : Visitor S).

(** *** A visitor that deletes nothing returns its input *)

Lemma visitSelection_id :
  (forall sel,
      (forall d, d ∈ directivesOfSelection sel -> deletes visitor d = false) ->
      forall s, (visitSelection visitor sel s).1 = Some sel) /\
  (forall set,
      (forall d, d ∈ directivesOfSelectionSet set -> deletes visitor d = false) ->
      forall s, (visitSelectionSet visitor set s).1 = set).
Proof.
  apply selection_mutual_induction.
  - intros alias name args directives selectionSet IH Hd s.
    rewrite visitSelection_Field. simpl in *.
    rewrite visitDirectives_fst, filter_all
      by (intros; apply Hd; rewrite elem_of_app; by left).
    destruct selectionSet as [set|]; simpl; [|done].
    rewrite (IH set eq_refl); [done|].
    intros; apply Hd; rewrite elem_of_app; by right.
  - intros name directives Hd s.
    rewrite visitSelection_FragmentSpread. simpl in *.
    by rewrite visitDirectives_fst, filter_all.
  - intros typeCondition directives set IH Hd s.
    rewrite visitSelection_InlineFragment. simpl in *.
    rewrite visitDirectives_fst, filter_all
      by (intros; apply Hd; rewrite elem_of_app; by left).
    rewrite IH; [done|].
    intros; apply Hd; rewrite elem_of_app; by right.
  - intros selections IH Hd s.
    rewrite visitSelectionSet_eq. simpl in *. f_equal.
    apply visitArray_id. intros sel Hsel s0.
    rewrite Forall_forall in IH. apply IH; [done|].
    intros d Hin. apply Hd. rewrite elem_of_flat_map. by exists sel.
Qed.

Lemma keepVariableDefinition_id vd :
  onVariableDefinition visitor vd = Continue ->
  (forall d, d ∈ directivesOfVariableDefinition vd -> deletes visitor d = false) ->
  keepVariableDefinition visitor vd = Some vd.
Proof.
  intros Hvd Hd. unfold keepVariableDefinition. rewrite Hvd.
  rewrite filter_all; [by destruct vd|].
  intros c Hc. apply Hd. unfold directivesOfVariableDefinition.
  rewrite list_elem_of_In. apply in_map. by rewrite <- list_elem_of_In.
Qed.

Lemma keepVariableDefinitions_id vds :
  (forall vd, vd ∈ vds -> onVariableDefinition visitor vd = Continue) ->
  (forall d, d ∈ flat_map directivesOfVariableDefinition vds ->
             deletes visitor d = false) ->
  omap (keepVariableDefinition visitor) vds = vds.
Proof.
  induction vds as [|vd vds IH]; intros Hvd Hd; [done|].
  change (omap ?f (vd :: vds)) with
    (match f vd with Some y => y :: omap f vds | None => omap f vds end).
  rewrite keepVariableDefinition_id, IH; first done.
  - intros. apply Hvd. by right.
  - intros d Hin. apply Hd. simpl. rewrite elem_of_app. by right.
  - apply Hvd. by left.
  - intros d Hin. apply Hd. simpl. rewrite elem_of_app. by left.
Qed.

Lemma visitDefinition_id def s :
  (forall d, d ∈ directivesOfDefinition def -> deletes visitor d = false) ->
  (forall vd, vd ∈ variableDefinitionsOfDefinition def ->
              onVariableDefinition visitor vd = Continue) ->
  (visitDefinition visitor def s).1 = Some def.
Proof.
  destruct visitSelection_id as [_ Hset].
  intros Hd Hvd. rewrite visitDefinition_eq. destruct def as [o|f]; simpl in *.
  - rewrite visitOperationDefinition_eq. simpl.
    rewrite visitVariableDefinitions_fst, visitDirectives_fst.
    rewrite keepVariableDefinitions_id, filter_all, Hset; first by destruct o.
    all: try done; intros; apply Hd; rewrite !elem_of_app; by auto.
  - rewrite visitFragmentDefinition_eq. simpl.
    rewrite visitVariableDefinitions_fst, visitDirectives_fst.
    rewrite keepVariableDefinitions_id, filter_all, Hset; first by destruct f.
    all: try done; intros; apply Hd; rewrite !elem_of_app; by auto.
Qed.

Lemma visit_id D s :
  (forall d, d ∈ directivesOf D -> deletes visitor d = false) ->
  (forall vd, vd ∈ variableDefinitionsOf D ->
              onVariableDefinition visitor vd = Continue) ->
  (visit visitor D s).1 = D.
Proof.
  intros Hd Hvd. rewrite visit_eq. simpl.
  rewrite visitArray_id; [by destruct D|].
  intros def Hdef s0. apply visitDefinition_id.
  - intros d Hin. apply Hd. unfold directivesOf. rewrite elem_of_flat_map.
    by exists def.
  - intros vd Hin. apply Hvd. unfold variableDefinitionsOf.
    rewrite elem_of_flat_map. by exists def.
Qed.

(** *** The variable definitions of the result *)

Lemma visit_variableDefinitions D s :
  variableDefinitionsOf (visit visitor D s).1 =
  omap (keepVariableDefinition visitor) (variableDefinitionsOf D).
Proof.
  rewrite visit_eq. unfold variableDefinitionsOf. simpl.
  rewrite omap_flat_map. apply visitArray_flat_map.
  intros def _ s0. rewrite visitDefinition_eq. destruct def as [o|f]; simpl.
  - rewrite visitOperationDefinition_eq. simpl.
    apply visitVariableDefinitions_fst.
  - rewrite visitFragmentDefinition_eq. simpl.
    apply visitVariableDefinitions_fst.
Qed.

(** *** The references of the result *)

Lemma visitDirectives_references skip ds :
  flat_map (referencesOfDirective skip)
    (filter (fun d => deletes visitor d = false) ds) =
  flat_map (referencesOfDirective (fun d => skip d || deletes visitor d)) ds.
Proof.
  induction ds as [|d ds IH]; [done|].
  rewrite filter_cons. simpl. rewrite <- IH.
  assert (Hd : referencesOfDirective (fun d => skip d || deletes visitor d) d =
               if deletes visitor d then [] else referencesOfDirective skip d).
  { unfold referencesOfDirective. by destruct (skip d), (deletes visitor d). }
  rewrite Hd. by destruct (deletes visitor d).
Qed.

Lemma visitSelection_references skip :
  (forall sel s,
      from_option (referencesOfSelection skip) []
        (visitSelection visitor sel s).1 =
      referencesOfSelection (fun d => skip d || deletes visitor d) sel) /\
  (forall set s,
      referencesOfSelectionSet skip (visitSelectionSet visitor set s).1 =
      referencesOfSelectionSet (fun d => skip d || deletes visitor d) set).
Proof.
  apply selection_mutual_induction.
  - intros alias name args directives selectionSet IH s.
    rewrite visitSelection_Field. simpl.
    rewrite visitDirectives_fst, visitDirectives_references.
    do 2 f_equal. destruct selectionSet as [set|]; simpl; [|done].
    by apply IH.
  - intros name directives s.
    rewrite visitSelection_FragmentSpread. simpl.
    by rewrite visitDirectives_fst, visitDirectives_references.
  - intros typeCondition directives set IH s.
    rewrite visitSelection_InlineFragment. simpl.
    by rewrite visitDirectives_fst, visitDirectives_references, IH.
  - intros selections IH s.
    rewrite visitSelectionSet_eq. simpl.
    apply visitArray_flat_map. intros sel Hsel s0.
    rewrite Forall_forall in IH. by apply IH.
Qed.

Lemma visit_references skip D s :
  referencesOutside skip (visit visitor D s).1 =
  referencesOutside (fun d => skip d || deletes visitor d) D.
Proof.
  destruct (visitSelection_references skip) as [_ Hset].
  rewrite visit_eq. unfold referencesOutside. simpl.
  apply visitArray_flat_map. intros def _ s0.
  rewrite visitDefinition_eq. destruct def as [o|f]; simpl.
  - rewrite visitOperationDefinition_eq. simpl.
    by rewrite visitDirectives_fst, visitDirectives_references, Hset.
  - rewrite visitFragmentDefinition_eq. simpl.
    by rewrite visitDirectives_fst, visitDirectives_references, Hset.
Qed.

End WalkIdentity.

(** *** References do not depend on directives that are not there *)

Lemma referencesOfDirectives_ext skip skip' (ds : list DirectiveNode) :
  (forall d, d ∈ ds -> skip d = skip' d) ->
  flat_map (referencesOfDirective skip) ds =
  flat_map (referencesOfDirective skip') ds.
Proof.
  induction ds as [|d ds IH]; intros H; [done|]. simpl.
  rewrite IH by (intros; apply H; by right).
  unfold referencesOfDirective. by rewrite (H d) by by left.
Qed.

Lemma referencesOfSelection_ext skip skip' :
  (forall sel,
      (forall d, d ∈ directivesOfSelection sel -> skip d = skip' d) ->
      referencesOfSelection skip sel = referencesOfSelection skip' sel) /\
  (forall set,
      (forall d, d ∈ directivesOfSelectionSet set -> skip d = skip' d) ->
      referencesOfSelectionSet skip set = referencesOfSelectionSet skip' set).
Proof.
  apply selection_mutual_induction.
  - intros alias name args directives selectionSet IH H. simpl in *.
    rewrite (referencesOfDirectives_ext skip skip')
      by (intros; apply H; rewrite elem_of_app; by left).
    do 2 f_equal. destruct selectionSet as [set|]; [|done].
    apply (IH set eq_refl). intros; apply H; rewrite elem_of_app; by right.
  - intros name directives H. simpl in *.
    by apply referencesOfDirectives_ext.
  - intros typeCondition directives set IH H. simpl in *.
    rewrite (referencesOfDirectives_ext skip skip')
      by (intros; apply H; rewrite elem_of_app; by left).
    f_equal. apply IH. intros; apply H; rewrite elem_of_app; by right.
  - intros selections IH H. simpl in *.
    rewrite Forall_forall in IH.
    induction selections as [|sel sels IHs]; [done|]. simpl.
    rewrite IH, IHs; first done.
    + intros. apply IH; [by right|done].
    + intros d Hd. apply H. simpl. rewrite elem_of_app. by right.
    + by left.
    + intros d Hd. apply H. simpl. rewrite elem_of_app. by left.
Qed.

Lemma referencesOutside_ext skip skip' D :
  (forall d, d ∈ directivesOf D -> skip d = skip' d) ->
  referencesOutside skip D = referencesOutside skip' D.
Proof.
  destruct (referencesOfSelection_ext skip skip') as [_ Hset].
  unfold referencesOutside, directivesOf.
  induction (definitions D) as [|def defs IH]; intros H; [done|]. simpl.
  rewrite IH by (intros d Hd; apply H; simpl; rewrite elem_of_app; by right).
  f_equal.
  assert (Hdef : forall d, d ∈ directivesOfDefinition def -> skip d = skip' d)
    by (intros d Hd; apply H; simpl; rewrite elem_of_app; by left).
  destruct def as [o|f]; simpl in *.
  - rewrite (referencesOfDirectives_ext skip skip'), Hset; first done.
    all: intros; apply Hdef; rewrite !elem_of_app; by auto.
  - rewrite (referencesOfDirectives_ext skip skip'), Hset; first done.
    all: intros; apply Hdef; rewrite !elem_of_app; by auto.
Qed.

(** ** The two passes of the scrubber *)

Section Passes.
Context (config : Config).

Lemma scrubSelection_eq D :
  scrubSelection config D =
  (visit (pruning (visit (elision config) D ∅).2) (visit (elision config) D ∅).1 tt).1.
Proof.
  unfold scrubSelection. fold (elision config).
  by destruct (visit (elision config) D ∅).
Qed.

Lemma deletes_elision d : deletes (elision config) d = isInternalDirective config d.
Proof. unfold deletes. simpl. by destruct (isInternalDirective config d). Qed.

Lemma deletes_pruning used d : deletes (pruning used) d = false.
Proof. done. Qed.

(** *** The set collected by the first pass *)

Lemma elision_visitValue parent v s :
  parent <> ParentNode KVariableDefinition ->
  visitValue (elision config) parent v s = namesOf (variablesOfValue v) ∪ s.
Proof.
  revert parent s.
  induction v as [x| | | | | | |values IH|fields IH] using value_induction;
    intros parent st Hp;
    try (simpl; unfold namesOf; simpl; set_solver).
  - simpl. unfold namesOf, referencedName. simpl.
    destruct parent as [|[]]; simpl; set_solver.
  - simpl. apply foldl_adds. eapply Forall_impl; [exact IH|].
    intros v IHv s0. by apply IHv.
  - simpl. apply foldl_adds. eapply Forall_impl; [exact IH|].
    intros [n v] IHv s0. by apply IHv.
Qed.

Lemma elision_visitArguments args s :
  visitArguments (elision config) args s = namesOf (flat_map variablesOfArgument args) ∪ s.
Proof.
  unfold visitArguments. apply foldl_adds. apply Forall_forall.
  intros [n v] _ s0. by apply elision_visitValue.
Qed.

Lemma elision_visitDirective d s :
  (visitDirective (elision config) d s).2 =
  namesOf (referencesOfDirective (isInternalDirective config) d) ∪ s.
Proof.
  unfold visitDirective, referencesOfDirective. simpl.
  destruct (isInternalDirective config d); simpl.
  - unfold namesOf. set_solver.
  - apply elision_visitArguments.
Qed.

Lemma elision_visitDirectives ds s :
  (visitArray (visitDirective (elision config)) ds s).2 =
  namesOf (flat_map (referencesOfDirective (isInternalDirective config)) ds) ∪ s.
Proof. apply visitArray_adds. intros. apply elision_visitDirective. Qed.

Lemma elision_visitVariableDefinitions vds s :
  (visitArray (visitVariableDefinition (elision config)) vds s).2 = s.
Proof.
  revert s. induction vds as [|vd vds IH]; intros s; simpl; [done|].
  assert (Hvd : (visitVariableDefinition (elision config) vd s).2 = s).
  { rewrite visitVariableDefinition_eq. simpl.
    generalize (vd_directives vd). intros cs. clear.
    revert s. induction cs as [|c cs IH]; intros s; simpl; [done|].
    assert (Hc : (visitConstDirective (elision config) c s).2 = s).
    { unfold visitConstDirective. by destruct (onDirective _ _). }
    destruct (visitConstDirective (elision config) c s) as [c' s1]. simpl in Hc. subst s1.
    specialize (IH s). by destruct (visitArray _ cs s). }
  destruct (visitVariableDefinition (elision config) vd s) as [vd' s1]. simpl in Hvd.
  subst s1. specialize (IH s). by destruct (visitArray _ vds s).
Qed.

Lemma elision_visitSelection :
  (forall sel s,
      (visitSelection (elision config) sel s).2 =
      namesOf (referencesOfSelection (isInternalDirective config) sel) ∪ s) /\
  (forall set s,
      (visitSelectionSet (elision config) set s).2 =
      namesOf (referencesOfSelectionSet (isInternalDirective config) set) ∪ s).
Proof.
  apply selection_mutual_induction.
  - intros alias name args directives selectionSet IH s.
    rewrite visitSelection_Field. simpl.
    rewrite !namesOf_app.
    destruct selectionSet as [set|]; simpl.
    + rewrite (IH set eq_refl), elision_visitDirectives, elision_visitArguments.
      set_solver.
    + rewrite elision_visitDirectives, elision_visitArguments.
      unfold namesOf at 3. set_solver.
  - intros name directives s.
    rewrite visitSelection_FragmentSpread. simpl.
    apply elision_visitDirectives.
  - intros typeCondition directives set IH s.
    rewrite visitSelection_InlineFragment. simpl.
    rewrite IH, elision_visitDirectives, namesOf_app. set_solver.
  - intros selections IH s.
    rewrite visitSelectionSet_eq. simpl.
    apply visitArray_adds. intros sel Hsel s0.
    rewrite Forall_forall in IH. by apply IH.
Qed.

Lemma elision_visit D s :
  (visit (elision config) D s).2 = namesOf (retainedReferences config D) ∪ s.
Proof.
  destruct elision_visitSelection as [_ Hset].
  rewrite visit_eq. unfold retainedReferences, referencesOutside. simpl.
  apply visitArray_adds. intros def _ s0.
  rewrite visitDefinition_eq. destruct def as [o|f]; simpl.
  - rewrite visitOperationDefinition_eq. simpl.
    rewrite Hset, elision_visitDirectives, elision_visitVariableDefinitions.
    rewrite namesOf_app. set_solver.
  - rewrite visitFragmentDefinition_eq. simpl.
    rewrite Hset, elision_visitDirectives, elision_visitVariableDefinitions.
    rewrite namesOf_app. set_solver.
Qed.

End Passes.

(** ** Properties of the scrubber *)

Lemma referencedIn_names refs vd :
  referencedIn refs vd <-> definedName vd ∈ namesOf refs.
Proof.
  unfold referencedIn. rewrite Exists_exists, elem_of_namesOf.
  split; intros (v & H1 & H2); exists v; by rewrite ?list_elem_of_In in *.
Qed.

Section ScrubLemmas.
Context (config : Config).

Lemma keepVariableDefinition_elision vd :
  keepVariableDefinition (elision config) vd =
  Some (withoutInternalDirectives config vd).
Proof.
  unfold keepVariableDefinition, withoutInternalDirectives. simpl.
  do 2 f_equal. apply list_filter_iff. intros c.
  by rewrite deletes_elision.
Qed.

Lemma keepVariableDefinition_pruning used vd :
  keepVariableDefinition (pruning used) vd =
  if bool_decide (definedName vd ∈ used) then Some vd else None.
Proof.
  unfold keepVariableDefinition, definedName. simpl.
  destruct (bool_decide _); simpl; [|done].
  rewrite filter_all by done. by destruct vd.
Qed.

Lemma scrub_references D :
  variableReferences (scrubSelection config D) = retainedReferences config D.
Proof.
  unfold variableReferences, retainedReferences.
  rewrite scrubSelection_eq, visit_references.
  rewrite (referencesOutside_ext _ (fun _ => false)) by done.
  rewrite visit_references. apply referencesOutside_ext.
  intros d _. by rewrite deletes_elision.
Qed.

Lemma scrub_variableDefinitions D :
  variableDefinitionsOf (scrubSelection config D) =
  map (withoutInternalDirectives config)
    (filter (referencedIn (retainedReferences config D))
       (variableDefinitionsOf D)).
Proof.
  rewrite scrubSelection_eq, !visit_variableDefinitions, elision_visit.
  induction (variableDefinitionsOf D) as [|vd vds IH]; [done|].
  rewrite filter_cons.
  change (omap ?f (vd :: vds)) with
    (match f vd with Some y => y :: omap f vds | None => omap f vds end).
  rewrite keepVariableDefinition_elision.
  change (omap ?f (?x :: ?l)) with
    (match f x with Some y => y :: omap f l | None => omap f l end).
  rewrite keepVariableDefinition_pruning, IH.
  change (definedName (withoutInternalDirectives config vd))
    with (definedName vd).
  destruct (decide (referencedIn (retainedReferences config D) vd)) as [Hr|Hr];
    rewrite referencedIn_names in Hr.
  - rewrite bool_decide_eq_true_2; [done|]. set_solver.
  - rewrite bool_decide_eq_false_2; [done|]. set_solver.
Qed.

End ScrubLemmas.

Example scrub_onlyInternalUse :
  scrubSelection Examples.internalOnly Examples.onlyInternalUse =
  Examples.onlyInternalUse_scrubbed.
Proof. vm_compute. reflexivity. Qed.

Example scrub_retainedUse :
  scrubSelection Examples.internalOnly Examples.retainedUse =
  Examples.retainedUse_scrubbed.
Proof. vm_compute. reflexivity. Qed.

Example scrub_bothUses :
  scrubSelection Examples.internalOnly Examples.bothUses =
  Examples.retainedUse_scrubbed.
Proof. vm_compute. reflexivity. Qed.

Example scrub_unusedVariable :
  scrubSelection Examples.internalOnly Examples.unusedVariable =
  Examples.queryQ [] [Field None (Name "field") [] [] None].
Proof. vm_compute. reflexivity. Qed.

(** C1. For every document and every predicate [isInternalDirective], no
    directive node of the document returned by [scrubSelection] satisfies
    [isInternalDirective]. *)
Theorem scrub_has_no_internal_directive
    (config : Config) (D : DocumentNode) :
  Forall (fun d => isInternalDirective config d = false)
    (directivesOf (scrubSelection config D)).
Proof.
  apply Forall_forall. intros d Hd.
  rewrite scrubSelection_eq in Hd.
  apply visit_directives in Hd. destruct Hd as [Hd _].
  apply visit_directives in Hd. destruct Hd as [_ Hd].
  by rewrite deletes_elision in Hd.
Qed.

(** C2. Every variable definition remaining in the scrubbed document has a
    reference (a [Variable] node that is not the one being defined) with
    its name in the scrubbed document; and every remaining definition has
    such a reference in the input outside the internal directives, so that
    the definition of a variable referenced only inside removed internal
    directives is deleted. *)
Theorem scrub_definitions_are_referenced
    (config : Config) (D : DocumentNode) :
  Forall (referencedIn (variableReferences (scrubSelection config D)))
    (variableDefinitionsOf (scrubSelection config D)) /\
  Forall (referencedIn (retainedReferences config D))
    (variableDefinitionsOf (scrubSelection config D)).
Proof.
  rewrite scrub_references. split.
  all: rewrite scrub_variableDefinitions; apply Forall_forall; intros vd' Hvd'.
  all: apply list_elem_of_fmap in Hvd'; destruct Hvd' as (vd & -> & Hvd).
  all: apply list_elem_of_filter in Hvd; by destruct Hvd.
Qed.

(** C3. A variable definition whose variable has a reference outside the
    internal directives is kept by [scrubSelection] (with its own internal
    directives removed), whether or not the variable is also referenced
    inside an internal directive. *)
Theorem scrub_keeps_retained_variable
    (config : Config) (D : DocumentNode) (vd : VariableDefinitionNode) :
  vd ∈ variableDefinitionsOf D ->
  referencedIn (retainedReferences config D) vd ->
  withoutInternalDirectives config vd ∈
    variableDefinitionsOf (scrubSelection config D).
Proof.
  intros Hvd Href. rewrite scrub_variableDefinitions.
  apply list_elem_of_fmap_2. by apply list_elem_of_filter.
Qed.

Lemma scrub_keeps_retained_variable_witness :
  Examples.idDefinition ∈ variableDefinitionsOf Examples.retainedUse /\
  referencedIn (retainedReferences Examples.internalOnly Examples.retainedUse)
    Examples.idDefinition /\
  Examples.idDefinition ∈
    variableDefinitionsOf
      (scrubSelection Examples.internalOnly Examples.retainedUse).
Proof.
  assert (H1 : Examples.idDefinition ∈
               variableDefinitionsOf Examples.retainedUse)
    by (vm_compute; left).
  assert (H2 : referencedIn
                 (retainedReferences Examples.internalOnly Examples.retainedUse)
                 Examples.idDefinition)
    by (vm_compute; left; reflexivity).
  split; [exact H1|]. split; [exact H2|].
  exact (scrub_keeps_retained_variable Examples.internalOnly
           Examples.retainedUse Examples.idDefinition H1 H2).
Defined.

(** C9, as stated, fails: a document without any directive whose variable
    is used nowhere loses the variable definition. *)
Lemma scrub_is_not_a_noop :
  Forall (fun d => isInternalDirective Examples.internalOnly d = false)
    (directivesOf Examples.unusedVariable) /\
  scrubSelection Examples.internalOnly Examples.unusedVariable <>
  Examples.unusedVariable.
Proof.
  split.
  - vm_compute. constructor.
  - rewrite scrub_unusedVariable. discriminate.
Qed.

(** C9, amended. [scrubSelection] returns a document for every document;
    when no directive of the document is internal and every variable
    definition is referenced in the document, it returns the document
    unchanged. *)
Theorem scrub_noop
    (config : Config) (D : DocumentNode) :
  (exists D', scrubSelection config D = D') /\
  (Forall (fun d => isInternalDirective config d = false) (directivesOf D) ->
   Forall (referencedIn (variableReferences D)) (variableDefinitionsOf D) ->
   scrubSelection config D = D).
Proof.
  split; [by eexists|].
  rewrite !Forall_forall. intros Hd Hvd.
  assert (Hfirst : (visit (elision config) D ∅).1 = D).
  { apply visit_id; [|done]. intros d Hin. rewrite deletes_elision. by apply Hd. }
  rewrite scrubSelection_eq, Hfirst, elision_visit.
  apply visit_id; [done|].
  intros vd Hin. simpl.
  rewrite bool_decide_eq_true_2; [done|].
  apply Hvd, referencedIn_names in Hin.
  unfold variableReferences in Hin.
  rewrite (referencesOutside_ext _ (isInternalDirective config)) in Hin
    by (intros d Hdin; symmetry; by apply Hd).
  unfold definedName in Hin. unfold retainedReferences. set_solver.
Qed.

Lemma scrub_noop_witness :
  scrubSelection Examples.internalOnly Examples.nothingInternal =
  Examples.nothingInternal.
Proof.
  apply (proj2 (scrub_noop Examples.internalOnly Examples.nothingInternal)).
  - vm_compute. repeat constructor.
  - vm_compute. repeat constructor.
Defined.

(** ** Properties of the synthesizers *)

Lemma append_nil_r (s : string) : s +:+ "" = s.
Proof.
  induction s as [|c s IH]; [done|].
  change (String c (s +:+ "") = String c s). by rewrite IH.
Qed.

Lemma append_ne_self (s t : string) : t <> "" -> s +:+ t <> s.
Proof.
  intros Ht H. rewrite <- (append_nil_r s) in H at 2.
  by apply (inj (String.append s)) in H.
Qed.

Lemma append_ne (s t u : string) : t <> u -> s +:+ t <> s +:+ u.
Proof. intros Ht H. by apply (inj (String.append s)) in H. Qed.

Ltac decide_names :=
  repeat first
    [ rewrite bool_decide_eq_true_2 by reflexivity
    | rewrite bool_decide_eq_false_2
        by first [ by apply append_ne_self
                 | by apply not_eq_sym, append_ne_self
                 | by apply append_ne ] ].

(** The query [Hello] with one variable. *)
Example generate_hello :
  generateOperationTypeDefs Examples.internalOnly GeneratorExamples.hello =
  Ok [ importDeclaration ["HelloQuery"] "./generated" "type";
       importDeclaration ["HelloQueryVariables"] "./generated" "type";
       exportNamedDeclaration
         (tsTypeAliasDeclaration "Hello$input"
            (tsTypeReference "HelloQueryVariables"));
       exportNamedDeclaration
         (tsTypeAliasDeclaration "Hello"
            (tsTypeLiteral
               [ PropertySignature "input" (tsTypeReference "Hello$input")
                   false true;
                 PropertySignature "result"
                   (tsUnionType [tsTypeReference "Hello$result";
                                 tsUndefinedKeyword]) false true ]));
       exportNamedDeclaration
         (tsTypeAliasDeclaration "Hello$result" (tsTypeReference "HelloQuery"));
       exportNamedDeclaration
         (tsTypeAliasDeclaration "Hello$afterLoad"
            (tsTypeLiteral
               [ PropertySignature "input"
                   (tsTypeLiteral
                      [PropertySignature "Hello"
                         (tsTypeReference "Hello$input") false true])
                   false true;
                 PropertySignature "data"
                   (tsTypeLiteral
                      [PropertySignature "Hello"
                         (tsTypeReference "Hello$result") false true])
                   false true ])) ].
Proof. vm_compute. reflexivity. Qed.

(** The mutation [DoThing] without variables. *)
Example generate_doThing :
  generateOperationTypeDefs GeneratorExamples.withAllRoots
    (GeneratorExamples.doThing "DoThing") =
  Ok [ importDeclaration ["DoThingMutation"] "./generated" "type";
       exportNamedDeclaration
         (tsTypeAliasDeclaration "DoThing"
            (tsTypeLiteral
               [ PropertySignature "input" tsNullKeyword false true;
                 PropertySignature "result" (tsTypeReference "DoThing$result")
                   false true ]));
       exportNamedDeclaration
         (tsTypeAliasDeclaration "DoThing$result"
            (tsTypeReference "DoThingMutation")) ].
Proof. vm_compute. reflexivity. Qed.

(** C4. The root type of an operation, exported under the operation's name,
    has exactly two fields, both read-only: [input], which is
    [<Name>$input] when the operation declares variables and [null]
    otherwise, and [result], which is [<Name>$result] for a mutation and
    [<Name>$result | undefined] for a query or a subscription. *)
Theorem operation_root_type
    (config : Config) (definition : OperationDefinitionNode)
    (name : NameNode) (root : GraphQLNamedType) :
  op_name definition = Some name ->
  rootTypeFor (schema config) (op_operation definition) = Some root ->
  exists program,
    generateOperationTypeDefs config definition = Ok program /\
    exportedType (value name) program =
      Some (tsTypeLiteral
              [ PropertySignature "input"
                  (match op_variableDefinitions definition with
                   | [] => tsNullKeyword
                   | _ :: _ => tsTypeReference (value name +:+ "$input")
                   end) false true;
                PropertySignature "result"
                  (if decide (op_operation definition = mutation)
                   then tsTypeReference (value name +:+ "$result")
                   else tsUnionType [ tsTypeReference (value name +:+ "$result");
                                      tsUndefinedKeyword ])
                  false true ]).
Proof.
  intros Hname Hroot. unfold generateOperationTypeDefs, rootTypeFor in *.
  rewrite Hname. cbv zeta. rewrite Hroot.
  destruct (op_variableDefinitions definition) as [|vd vds];
    destruct (op_operation definition);
    (eexists; split; [reflexivity|]); simpl; by decide_names.
Qed.

Lemma operation_root_type_witness :
  exists program,
    generateOperationTypeDefs Examples.internalOnly
      (OperationDefinition query (Some (Name "Hello")) [Examples.idDefinition]
         [] (SelectionSet [])) = Ok program /\
    exportedType "Hello" program =
      Some (tsTypeLiteral
              [ PropertySignature "input" (tsTypeReference "Hello$input")
                  false true;
                PropertySignature "result"
                  (tsUnionType [tsTypeReference "Hello$result";
                                tsUndefinedKeyword]) false true ]).
Proof.
  exact (operation_root_type Examples.internalOnly
           (OperationDefinition query (Some (Name "Hello"))
              [Examples.idDefinition] [] (SelectionSet []))
           (Name "Hello") (NamedTypeOf "Query") eq_refl eq_refl).
Defined.

(** C5. [<Name>$afterLoad] is exported exactly for queries. It has a field
    [data] of type [{ <Name>: <Name>$result }] and, when the operation
    declares variables, a field [input] of type [{ <Name>: <Name>$input }]
    in front of it. *)
Theorem operation_afterLoad
    (config : Config) (definition : OperationDefinitionNode)
    (name : NameNode) (root : GraphQLNamedType) :
  op_name definition = Some name ->
  rootTypeFor (schema config) (op_operation definition) = Some root ->
  exists program,
    generateOperationTypeDefs config definition = Ok program /\
    exportedType (value name +:+ "$afterLoad") program =
      if decide (op_operation definition = query) then
        let data :=
          PropertySignature "data"
            (tsTypeLiteral
               [PropertySignature (value name)
                  (tsTypeReference (value name +:+ "$result")) false true])
            false true in
        let input :=
          PropertySignature "input"
            (tsTypeLiteral
               [PropertySignature (value name)
                  (tsTypeReference (value name +:+ "$input")) false true])
            false true in
        Some (tsTypeLiteral
                (match op_variableDefinitions definition with
                 | [] => [data]
                 | _ :: _ => [input; data]
                 end))
      else None.
Proof.
  intros Hname Hroot. unfold generateOperationTypeDefs, rootTypeFor in *.
  rewrite Hname. cbv zeta. rewrite Hroot.
  destruct (op_variableDefinitions definition) as [|vd vds];
    destruct (op_operation definition);
    (eexists; split; [reflexivity|]); simpl; by decide_names.
Qed.

Lemma operation_afterLoad_witness :
  exists program,
    generateOperationTypeDefs Examples.internalOnly
      (OperationDefinition query (Some (Name "Hello")) [Examples.idDefinition]
         [] (SelectionSet [])) = Ok program /\
    exportedType "Hello$afterLoad" program =
      Some (tsTypeLiteral
              [ PropertySignature "input"
                  (tsTypeLiteral
                     [PropertySignature "Hello" (tsTypeReference "Hello$input")
                        false true]) false true;
                PropertySignature "data"
                  (tsTypeLiteral
                     [PropertySignature "Hello" (tsTypeReference "Hello$result")
                        false true]) false true ]).
Proof.
  exact (operation_afterLoad Examples.internalOnly
           (OperationDefinition query (Some (Name "Hello"))
              [Examples.idDefinition] [] (SelectionSet []))
           (Name "Hello") (NamedTypeOf "Query") eq_refl eq_refl).
Defined.

(** *** The regular expression of the index *)

Lemma list_ascii_of_string_app (s t : string) :
  String.list_ascii_of_string (s +:+ t) =
  String.list_ascii_of_string s ++ String.list_ascii_of_string t.
Proof.
  induction s as [|c s IH]; [done|].
  change (c :: String.list_ascii_of_string (s +:+ t) =
          c :: String.list_ascii_of_string s ++ String.list_ascii_of_string t).
  by rewrite IH.
Qed.

Lemma span_app (p : ascii -> bool) (run tail : list ascii) :
  forallb p run = true ->
  match tail with [] => True | c :: _ => p c = false end ->
  span p (run ++ tail) = (run, tail).
Proof.
  intros Hrun Htail. induction run as [|c run IH].
  - destruct tail as [|c tail]; [done|]. simpl. by rewrite Htail.
  - simpl in Hrun. apply andb_true_iff in Hrun. destruct Hrun as [Hc Hrun].
    simpl. by rewrite Hc, IH.
Qed.

Lemma forallb_rev (p : ascii -> bool) (l : list ascii) :
  forallb p l = true -> forallb p (rev l) = true.
Proof.
  rewrite !forallb_forall. intros H c Hc. apply H. by apply in_rev.
Qed.

Lemma isSegment_chars (text : string) :
  isSegment text = true ->
  exists c chars,
    rev (String.list_ascii_of_string text) = c :: chars /\
    forallb isSegmentChar (c :: chars) = true.
Proof.
  unfold isSegment. intros H.
  destruct (String.list_ascii_of_string text) as [|c0 l] eqn:E; [done|].
  apply forallb_rev in H.
  destruct (rev (c0 :: l)) as [|c chars] eqn:Er.
  - apply (f_equal (@length ascii)) in Er. rewrite length_rev in Er. done.
  - by exists c, chars.
Qed.

Lemma matchDualExtension_match (first second front : list ascii) :
  first <> [] -> forallb isSegmentChar first = true ->
  second <> [] -> forallb isSegmentChar second = true ->
  matchDualExtension (second ++ "."%char :: first ++ "."%char :: front) =
  Some front.
Proof.
  intros Hne1 H1 Hne2 H2. unfold matchDualExtension.
  rewrite (span_app isSegmentChar second) by done.
  destruct second as [|b second]; [done|]. cbv beta iota zeta.
  rewrite (span_app isSegmentChar first) by done.
  by destruct first.
Qed.

Lemma removeDualExtension_match (front first second : string) :
  isSegment first = true ->
  isSegment second = true ->
  removeDualExtension (front +:+ "." +:+ first +:+ "." +:+ second) = front.
Proof.
  intros (a & As & Ea & Ha)%isSegment_chars (b & Bs & Eb & Hb)%isSegment_chars.
  unfold removeDualExtension.
  rewrite !list_ascii_of_string_app, !rev_app_distr, Ea, Eb.
  change (rev (String.list_ascii_of_string ".")) with ["."%char].
  rewrite <- !app_assoc.
  assert (E : matchDualExtension
                ((b :: Bs) ++ ["."%char] ++ (a :: As) ++ ["."%char] ++
                 rev (String.list_ascii_of_string front)) =
              Some (rev (String.list_ascii_of_string front)))
    by by apply (matchDualExtension_match (a :: As) (b :: Bs)).
  rewrite E.
  by rewrite rev_involutive, String.string_of_list_ascii_of_string.
Qed.

Example removeDualExtension_one_level :
  removeDualExtension "artifacts/Hello.xyz.ext.ext" = "artifacts/Hello.xyz".
Proof. vm_compute. reflexivity. Qed.

Example removeDualExtension_d_ts :
  removeDualExtension "artifacts/Hello.d.ts" = "artifacts/Hello".
Proof. vm_compute. reflexivity. Qed.

Example removeDualExtension_no_match :
  removeDualExtension "artifacts/Hello.ts" = "artifacts/Hello.ts".
Proof. vm_compute. reflexivity. Qed.


(** C6. When the type condition of a fragment names a type of the schema,
    the prop type and the data type are both exported: [<Name>] with a
    read-only optional [shape] of type [<Name>$data] and a read-only
    [$fragments] of type [{ <Name>: true }], and [<Name>$data], an alias of
    the imported [<Name>Fragment]. Otherwise the synthesis throws. *)
Theorem fragment_types (config : Config) (definition : FragmentDefinitionNode) :
  (getType (schema config)
     (value (namedType_name (frag_typeCondition definition))) <> None ->
   exists program,
     generateFragmentTypeDefs config definition = Ok program /\
     importedNames program = [value (frag_name definition) +:+ "Fragment"] /\
     exportedType (value (frag_name definition)) program =
       Some (tsTypeLiteral
               [ PropertySignature "shape"
                   (tsTypeReference (value (frag_name definition) +:+ "$data"))
                   true true;
                 PropertySignature "$fragments"
                   (tsTypeLiteral
                      [PropertySignature (value (frag_name definition))
                         (tsLiteralType true) false false])
                   false true ]) /\
     exportedType (value (frag_name definition) +:+ "$data") program =
       Some (tsTypeReference (value (frag_name definition) +:+ "Fragment"))) /\
  (getType (schema config)
     (value (namedType_name (frag_typeCondition definition))) = None ->
   generateFragmentTypeDefs config definition =
   Throw (Error "Should not get here")).
Proof.
  unfold generateFragmentTypeDefs.
  destruct (getType (schema config) _) as [type|]; split; try done.
  intros _. eexists. split; [reflexivity|]. simpl. by decide_names.
Qed.

Lemma fragment_types_witness :
  (exists program,
     generateFragmentTypeDefs Examples.internalOnly GeneratorExamples.userInfo =
       Ok program /\
     importedNames program = ["UserInfoFragment"] /\
     exportedType "UserInfo" program =
       Some (tsTypeLiteral
               [ PropertySignature "shape" (tsTypeReference "UserInfo$data")
                   true true;
                 PropertySignature "$fragments"
                   (tsTypeLiteral
                      [PropertySignature "UserInfo" (tsLiteralType true)
                         false false])
                   false true ]) /\
     exportedType "UserInfo$data" program =
       Some (tsTypeReference "UserInfoFragment")) /\
  generateFragmentTypeDefs Examples.internalOnly GeneratorExamples.ghost =
    Throw (Error "Should not get here").
Proof.
  split.
  - apply (proj1 (fragment_types Examples.internalOnly GeneratorExamples.userInfo)).
    vm_compute. discriminate.
  - apply (proj2 (fragment_types Examples.internalOnly GeneratorExamples.ghost)).
    vm_compute. reflexivity.
Defined.

(** C7. The index has one re-export for each path, in order: the path
    relative to the directory of the index, without the dual extension at
    its end when it has one; and then, last, [./runtime] and [./stores]. *)
Theorem index_manifest
    (relative resolve : string -> string -> string)
    (config : Config) (typePaths : list string) :
  length (typeIndex relative resolve config typePaths) = length typePaths + 2 /\
  (forall i typePath,
      typePaths !! i = Some typePath ->
      typeIndex relative resolve config typePaths !! i =
      Some (exportAllDeclaration
              ("./" +:+
               removeDualExtension
                 (relative (resolve (typeIndexPath config) "..") typePath)))) /\
  (forall i typePath front first second,
      typePaths !! i = Some typePath ->
      relative (resolve (typeIndexPath config) "..") typePath =
        front +:+ "." +:+ first +:+ "." +:+ second ->
      isSegment first = true ->
      isSegment second = true ->
      typeIndex relative resolve config typePaths !! i =
      Some (exportAllDeclaration ("./" +:+ front))) /\
  typeIndex relative resolve config typePaths !! length typePaths =
    Some (exportAllDeclaration "./runtime") /\
  typeIndex relative resolve config typePaths !! S (length typePaths) =
    Some (exportAllDeclaration "./stores").
Proof.
  assert (Hentry : forall i typePath,
             typePaths !! i = Some typePath ->
             typeIndex relative resolve config typePaths !! i =
             Some (exportAllDeclaration
                     ("./" +:+
                      removeDualExtension
                        (relative (resolve (typeIndexPath config) "..")
                           typePath)))).
  { intros i typePath Hi. unfold typeIndex.
    rewrite lookup_app_l by (rewrite length_map; by eapply lookup_lt_Some).
    rewrite list_lookup_fmap, Hi. done. }
  unfold typeIndex in *. repeat split.
  - rewrite length_app, length_map. done.
  - exact Hentry.
  - intros i typePath front first second Hi Hrel H1 H2.
    rewrite (Hentry i typePath Hi), Hrel.
    by rewrite removeDualExtension_match.
  - rewrite lookup_app_r by (by rewrite length_map).
    by rewrite length_map, Nat.sub_diag.
  - rewrite lookup_app_r by (rewrite length_map; lia).
    rewrite length_map. by replace (S _ - _) with 1 by lia.
Qed.

Lemma index_manifest_witness :
  typeIndex GeneratorExamples.relative GeneratorExamples.resolve
    Examples.internalOnly ["artifacts/Hello.d.ts"; "artifacts/UserInfo.d.ts"] !! 1 =
  Some (exportAllDeclaration "./artifacts/UserInfo").
Proof.
  apply (proj1 (proj2 (proj2
           (index_manifest GeneratorExamples.relative GeneratorExamples.resolve
              Examples.internalOnly
              ["artifacts/Hello.d.ts"; "artifacts/UserInfo.d.ts"])))
           1 "artifacts/UserInfo.d.ts" "artifacts/UserInfo" "d" "ts");
    reflexivity.
Defined.

(** *** Failures *)

Lemma findDefinition_name doc definition :
  findDefinition doc = Some definition ->
  definitionName definition = Some (name doc).
Proof.
  intros H. apply find_some in H. destruct H as [_ H].
  by apply bool_decide_eq_true in H.
Qed.

Lemma findDefinition_operation_name doc definition :
  findDefinition doc = Some (Operation definition) ->
  op_name definition = Some (Name (name doc)).
Proof.
  intros H. apply findDefinition_name in H. simpl in H.
  destruct (op_name definition) as [[n]|]; simpl in H; by simplify_eq.
Qed.

Lemma mapM_throws {A B} (f : A -> result B) (l : list A) (x : A) (e : exn) :
  x ∈ l -> f x = Throw e -> exists e', mapM f l = Throw e'.
Proof.
  intros Hx Hf. induction l as [|a l IH]; [by inversion Hx|].
  simpl. apply elem_of_cons in Hx. destruct Hx as [->|Hx].
  - rewrite Hf. by eexists.
  - destruct (f a) as [b|e0]; [|by eexists]. simpl.
    destruct (IH Hx) as [e' ->]. by eexists.
Qed.

Lemma mapM_first_throw {A B} (f : A -> result B)
    (before after : list A) (x : A) (ys : list B) (e : exn) :
  mapM f before = Ok ys -> f x = Throw e ->
  mapM f (before ++ x :: after) = Throw e.
Proof.
  revert ys. induction before as [|a before IH]; intros ys Hbefore Hf; simpl.
  - by rewrite Hf.
  - simpl in Hbefore. destruct (f a) as [b|e0]; [|done]. simpl in *.
    destruct (mapM f before) as [ys'|e0]; [|done].
    by rewrite (IH ys' eq_refl Hf).
Qed.

Lemma generateDocumentTypes_schema_error config doc message :
  generateArtifact doc = true ->
  schemaResolutionFails config doc message ->
  generateDocumentTypes config doc = Throw (Error message).
Proof.
  intros Hartifact Hfails.
  unfold generateDocumentTypes, schemaResolutionFails in *.
  rewrite Hartifact. simpl. fold (findDefinition doc).
  destruct (findDefinition doc) as [[o|f]|] eqn:Hfind; [| |done].
  - destruct Hfails as [Hroot ->].
    unfold generateOperationTypeDefs.
    rewrite (findDefinition_operation_name _ _ Hfind). cbv zeta.
    unfold rootTypeFor in Hroot. by rewrite Hroot.
  - destruct Hfails as [Htype ->].
    unfold generateFragmentTypeDefs. by rewrite Htype.
Qed.

(** C8, as stated, fails: the message of the error is a fixed text, the
    same for every document, in which the name of the document does not
    occur. *)
Lemma schema_error_does_not_name_the_document :
  typescriptGenerator GeneratorExamples.codegen GeneratorExamples.relative
    GeneratorExamples.resolve Examples.internalOnly
    [GeneratorExamples.collected "DoThing"
       (Operation (GeneratorExamples.doThing "DoThing"))] =
  Throw (Error "Could not find root type for document") /\
  includes "Could not find root type for document" "DoThing" = false /\
  typescriptGenerator GeneratorExamples.codegen GeneratorExamples.relative
    GeneratorExamples.resolve Examples.internalOnly
    [GeneratorExamples.collected "Other"
       (Operation (GeneratorExamples.doThing "Other"))] =
  Throw (Error "Could not find root type for document") /\
  typescriptGenerator GeneratorExamples.codegen GeneratorExamples.relative
    GeneratorExamples.resolve Examples.internalOnly
    [GeneratorExamples.collected "Ghost" (Fragment GeneratorExamples.ghost)] =
  Throw (Error "Should not get here") /\
  includes "Should not get here" "Ghost" = false.
Proof. vm_compute. repeat split. Qed.

(** C8, amended. When the synthesis for a document that gets an artifact
    fails on resolving against the schema, it throws an error with a fixed
    message ([Could not find root type for document] for an operation,
    [Should not get here] for a fragment), and every run over documents
    that include it throws; the run throws this very error when the shape
    generator and the documents in front succeed. *)
Theorem schema_errors_abort_the_run
    (codegen : list DocumentNode -> GraphQLSchema -> result string)
    (relative resolve : string -> string -> string)
    (config : Config) (doc : CollectedGraphQLDocument) (message : string) :
  generateArtifact doc = true ->
  schemaResolutionFails config doc message ->
  (message = "Could not find root type for document" \/
   message = "Should not get here") /\
  generateDocumentTypes config doc = Throw (Error message) /\
  (forall docs,
      doc ∈ docs ->
      exists e,
        typescriptGenerator codegen relative resolve config docs = Throw e) /\
  (forall before after text files,
      codegen
        (map (fun doc => scrubSelection config (document doc))
           (filter (fun doc => generateStore doc = true)
              (before ++ doc :: after)))
        (schema config) = Ok text ->
      mapM (generateDocumentTypes config) before = Ok files ->
      typescriptGenerator codegen relative resolve config
        (before ++ doc :: after) = Throw (Error message)).
Proof.
  intros Hartifact Hfails.
  pose proof (generateDocumentTypes_schema_error _ _ _ Hartifact Hfails) as Hdoc.
  repeat split.
  - unfold schemaResolutionFails in Hfails.
    destruct (findDefinition doc) as [[o|f]|]; [| |done];
      destruct Hfails as [_ ->]; by auto.
  - exact Hdoc.
  - intros docs Hin. unfold typescriptGenerator.
    destruct (codegen _ _) as [text|e]; [|by eexists]. simpl.
    destruct (mapM_throws _ _ _ _ Hin Hdoc) as [e' ->]. by eexists.
  - intros before after text files Hcodegen Hbefore.
    unfold typescriptGenerator. rewrite Hcodegen. simpl.
    by rewrite (mapM_first_throw _ _ _ _ _ _ Hbefore Hdoc).
Qed.

Lemma schema_errors_abort_the_run_witness :
  generateDocumentTypes Examples.internalOnly
    (GeneratorExamples.collected "DoThing"
       (Operation (GeneratorExamples.doThing "DoThing"))) =
  Throw (Error "Could not find root type for document").
Proof.
  apply (schema_errors_abort_the_run GeneratorExamples.codegen
           GeneratorExamples.relative GeneratorExamples.resolve
           Examples.internalOnly
           (GeneratorExamples.collected "DoThing"
              (Operation (GeneratorExamples.doThing "DoThing")))
           "Could not find root type for document").
  - reflexivity.
  - vm_compute. split; reflexivity.
Defined.

(** C10. [generateOperationTypeDefs] reads the name of the definition
    before anything else: on an anonymous operation it throws. The
    orchestrator never calls it on one, for it finds the definition by its
    name. *)
Theorem anonymous_operation_is_unreachable :
  (forall config definition,
      op_name definition = None ->
      generateOperationTypeDefs config definition = Throw TypeError) /\
  (forall config doc definition,
      findDefinition doc = Some (Operation definition) ->
      op_name definition = Some (Name (name doc)) /\
      generateOperationTypeDefs config definition <> Throw TypeError).
Proof.
  split.
  - intros config definition Hname. unfold generateOperationTypeDefs.
    by rewrite Hname.
  - intros config doc definition Hfind.
    pose proof (findDefinition_operation_name _ _ Hfind) as Hname.
    split; [done|]. unfold generateOperationTypeDefs. rewrite Hname.
    cbv zeta. by destruct (match op_operation definition with
                           | query => _ | mutation => _ | subscription => _ end).
Qed.

Lemma anonymous_operation_is_unreachable_witness :
  generateOperationTypeDefs Examples.internalOnly
    (OperationDefinition query None [] [] (SelectionSet [])) = Throw TypeError /\
  op_name GeneratorExamples.hello = Some (Name "Hello") /\
  generateOperationTypeDefs Examples.internalOnly GeneratorExamples.hello <>
  Throw TypeError.
Proof.
  split.
  - apply (proj1 anonymous_operation_is_unreachable). reflexivity.
  - apply (proj2 anonymous_operation_is_unreachable Examples.internalOnly
             (GeneratorExamples.collected "Hello"
                (Operation GeneratorExamples.hello))).
    reflexivity.
Defined.

(** * Further properties *)

(** ** The scrubber *)

Lemma scrub_directive_kept (config : Config) (D : DocumentNode) (d : DirectiveNode) :
  d ∈ directivesOf (scrubSelection config D) ->
  d ∈ directivesOf D /\ isInternalDirective config d = false.
Proof.
  rewrite scrubSelection_eq. intros Hd.
  apply visit_directives in Hd. destruct Hd as [Hd _].
  apply visit_directives in Hd. destruct Hd as [Hin Hd].
  by rewrite deletes_elision in Hd.
Qed.

Lemma scrub_isScrubbed (config : Config) (D : DocumentNode) :
  isScrubbed config (scrubSelection config D).
Proof.
  split.
  - apply Forall_forall. intros d Hd. apply scrub_directive_kept in Hd.
    by destruct Hd.
  - rewrite scrub_references, scrub_variableDefinitions.
    apply Forall_forall. intros vd' Hvd'.
    apply list_elem_of_fmap in Hvd'. destruct Hvd' as (vd & -> & Hvd).
    apply list_elem_of_filter in Hvd. by destruct Hvd.
Qed.

Lemma isScrubbed_unchanged (config : Config) (D : DocumentNode) :
  isScrubbed config D -> scrubSelection config D = D.
Proof.
  intros [Hd Hvd]. rewrite Forall_forall in Hd. rewrite Forall_forall in Hvd.
  assert (Hfirst : (visit (elision config) D ∅).1 = D).
  { apply visit_id; [|done]. intros d Hin. rewrite deletes_elision. by apply Hd. }
  rewrite scrubSelection_eq, Hfirst, elision_visit.
  apply visit_id; [done|].
  intros vd Hin. simpl.
  rewrite bool_decide_eq_true_2; [done|].
  apply Hvd, referencedIn_names in Hin.
  unfold variableReferences in Hin.
  rewrite (referencesOutside_ext _ (isInternalDirective config)) in Hin
    by (intros d Hdin; symmetry; by apply Hd).
  unfold definedName in Hin. unfold retainedReferences. set_solver.
Qed.

(** X1. Scrubbing is idempotent: scrubbing a scrubbed document changes
    nothing. *)
Theorem scrub_idempotent (config : Config) (D : DocumentNode) :
  scrubSelection config (scrubSelection config D) = scrubSelection config D.
Proof. apply isScrubbed_unchanged, scrub_isScrubbed. Qed.

(** X2. The variable definitions of the scrubbed document are, in order,
    the definitions of the input whose name is referenced outside the
    internal directives, each without its own internal directives. *)
Theorem scrub_definitions_exact (config : Config) (D : DocumentNode) :
  variableDefinitionsOf (scrubSelection config D) =
  map (withoutInternalDirectives config)
    (filter (referencedIn (retainedReferences config D))
       (variableDefinitionsOf D)).
Proof. apply scrub_variableDefinitions. Qed.

(** X3. The variable references of the scrubbed document are, in order,
    the references of the input that are not below an internal directive:
    no other reference is lost, none is added. *)
Theorem scrub_references_exact (config : Config) (D : DocumentNode) :
  variableReferences (scrubSelection config D) = retainedReferences config D.
Proof. apply scrub_references. Qed.

Lemma filter_flat_map {A B} (P : B -> Prop) `{forall x, Decision (P x)}
    (f : A -> list B) (l : list A) :
  filter P (flat_map f l) = flat_map (fun x => filter P (f x)) l.
Proof. induction l as [|a l IH]; simpl; [done|]. by rewrite filter_app, IH. Qed.

Section BodyDirectives.
Context {S : Type} (visitor : Visitor S).

Lemma visitSelection_bodyDirectives :
  (forall sel s,
      from_option directivesOfSelection [] (visitSelection visitor sel s).1 =
      filter (fun d => deletes visitor d = false) (directivesOfSelection sel)) /\
  (forall set s,
      directivesOfSelectionSet (visitSelectionSet visitor set s).1 =
      filter (fun d => deletes visitor d = false) (directivesOfSelectionSet set)).
Proof.
  apply selection_mutual_induction.
  - intros alias name args directives selectionSet IH s.
    rewrite visitSelection_Field. simpl.
    rewrite visitDirectives_fst, filter_app. f_equal.
    destruct selectionSet as [set|]; simpl; [|done]. by apply IH.
  - intros name directives s.
    rewrite visitSelection_FragmentSpread. simpl.
    by rewrite visitDirectives_fst.
  - intros typeCondition directives set IH s.
    rewrite visitSelection_InlineFragment. simpl.
    by rewrite visitDirectives_fst, filter_app, IH.
  - intros selections IH s.
    rewrite visitSelectionSet_eq. simpl. rewrite filter_flat_map.
    apply visitArray_flat_map. intros sel Hsel s0.
    rewrite Forall_forall in IH. by apply IH.
Qed.

Lemma visit_bodyDirectives D s :
  bodyDirectives (visit visitor D s).1 =
  filter (fun d => deletes visitor d = false) (bodyDirectives D).
Proof.
  destruct visitSelection_bodyDirectives as [_ Hset].
  rewrite visit_eq. unfold bodyDirectives. simpl. rewrite filter_flat_map.
  apply visitArray_flat_map. intros def _ s0.
  rewrite visitDefinition_eq. destruct def as [o|f]; simpl.
  - rewrite visitOperationDefinition_eq. simpl.
    by rewrite visitDirectives_fst, filter_app, Hset.
  - rewrite visitFragmentDefinition_eq. simpl.
    by rewrite visitDirectives_fst, filter_app, Hset.
Qed.

Lemma visitArray_map {A B} (f : A -> S -> option A * S) (h : A -> B)
    (l : list A) (s : S) :
  (forall x, x ∈ l -> forall s0,
       exists x', (f x s0).1 = Some x' /\ h x' = h x) ->
  map h (visitArray f l s).1 = map h l.
Proof.
  revert s. induction l as [|a l IH]; intros s H; simpl; [done|].
  destruct (H a ltac:(by left) s) as (a' & Ha & Hh).
  destruct (f a s) as [r s1]. simpl in Ha. subst r.
  specialize (IH s1 ltac:(intros; apply H; by right)).
  destruct (visitArray f l s1) as [l' s2]. simpl in *. by rewrite Hh, IH.
Qed.

Lemma visit_heads D s :
  map definitionHead (definitions (visit visitor D s).1) =
  map definitionHead (definitions D).
Proof.
  rewrite visit_eq. simpl. apply visitArray_map. intros def _ s0.
  rewrite visitDefinition_eq. destruct def as [o|f]; simpl.
  - eexists. split; [done|]. by rewrite visitOperationDefinition_eq.
  - eexists. split; [done|]. by rewrite visitFragmentDefinition_eq.
Qed.

End BodyDirectives.

(** X4. On the operations, the fragments and their selections, the
    scrubbed document has exactly the directives of the input that are not
    internal, in the same order: no other directive is removed. *)
Theorem scrub_keeps_other_directives (config : Config) (D : DocumentNode) :
  bodyDirectives (scrubSelection config D) =
  filter (fun d => isInternalDirective config d = false) (bodyDirectives D).
Proof.
  rewrite scrubSelection_eq, !visit_bodyDirectives.
  rewrite filter_all by done.
  apply list_filter_iff. intros d. by rewrite deletes_elision.
Qed.

(** X5. Scrubbing neither deletes nor adds nor reorders a definition, and
    keeps the kind and name of each, the type of an operation and the type
    condition of a fragment. *)
Theorem scrub_keeps_definitions (config : Config) (D : DocumentNode) :
  map definitionHead (definitions (scrubSelection config D)) =
  map definitionHead (definitions D).
Proof. by rewrite scrubSelection_eq, !visit_heads. Qed.

(** ** The synthesizers *)

Ltac names_differ :=
  first [ by apply append_ne_self
        | by apply not_eq_sym, append_ne_self
        | by apply append_ne ].

(** X6. The program of an operation imports the shape [<Name><Kind>], with
    the kind capitalised, and exports it as [<Name>$result]; when the
    operation declares variables it also imports [<Name><Kind>Variables]
    and exports it as [<Name>$input], and otherwise there is no
    [<Name>$input]. *)
Theorem operation_shape_aliases
    (config : Config) (definition : OperationDefinitionNode)
    (name : NameNode) (root : GraphQLNamedType) :
  op_name definition = Some name ->
  rootTypeFor (schema config) (op_operation definition) = Some root ->
  exists program,
    generateOperationTypeDefs config definition = Ok program /\
    importedNames program =
      (value name +:+ shapeSuffix (op_operation definition)) ::
      match op_variableDefinitions definition with
      | [] => []
      | _ :: _ =>
          [(value name +:+ shapeSuffix (op_operation definition)) +:+ "Variables"]
      end /\
    exportedType (value name +:+ "$result") program =
      Some (tsTypeReference
              (value name +:+ shapeSuffix (op_operation definition))) /\
    exportedType (value name +:+ "$input") program =
      match op_variableDefinitions definition with
      | [] => None
      | _ :: _ =>
          Some (tsTypeReference
                  ((value name +:+ shapeSuffix (op_operation definition))
                   +:+ "Variables"))
      end.
Proof.
  intros Hname Hroot. unfold generateOperationTypeDefs, rootTypeFor in *.
  rewrite Hname. cbv zeta. rewrite Hroot.
  destruct (op_variableDefinitions definition) as [|vd vds];
    destruct (op_operation definition);
    (eexists; split; [reflexivity|]); simpl; by decide_names.
Qed.

Lemma operation_shape_aliases_witness :
  exists program,
    generateOperationTypeDefs GeneratorExamples.withAllRoots
      (GeneratorExamples.doThing "DoThing") = Ok program /\
    importedNames program = ["DoThingMutation"] /\
    exportedType "DoThing$result" program =
      Some (tsTypeReference "DoThingMutation") /\
    exportedType "DoThing$input" program = None.
Proof.
  exact (operation_shape_aliases GeneratorExamples.withAllRoots
           (GeneratorExamples.doThing "DoThing") (Name "DoThing")
           (NamedTypeOf "Mutation") eq_refl eq_refl).
Defined.

(** X7. No generated program exports two types under one name. *)
Theorem exported_names_are_distinct (config : Config) :
  (forall definition program,
      generateOperationTypeDefs config definition = Ok program ->
      NoDup (exportedNames program)) /\
  (forall definition program,
      generateFragmentTypeDefs config definition = Ok program ->
      NoDup (exportedNames program)).
Proof.
  split; intros definition program.
  - unfold generateOperationTypeDefs.
    destruct (op_name definition) as [name|]; [|done]. cbv zeta.
    destruct (match op_operation definition with
              | query => _ | mutation => _ | subscription => _ end); [|done].
    destruct (op_variableDefinitions definition) as [|vd vds];
      destruct (op_operation definition); intros [= <-]; simpl;
      repeat (apply NoDup_cons; split;
              [rewrite ?not_elem_of_cons; repeat split;
               first [names_differ | apply not_elem_of_nil]|]);
      apply NoDup_nil; done.
  - unfold generateFragmentTypeDefs.
    destruct (getType _ _); [|done]. intros [= <-]. simpl.
    repeat (apply NoDup_cons; split;
            [rewrite ?not_elem_of_cons; repeat split;
             first [names_differ | apply not_elem_of_nil]|]).
    apply NoDup_nil; done.
Qed.

Lemma exported_names_are_distinct_witness :
  (exists program,
      generateOperationTypeDefs Examples.internalOnly GeneratorExamples.hello =
        Ok program /\
      NoDup (exportedNames program)) /\
  (exists program,
      generateFragmentTypeDefs Examples.internalOnly GeneratorExamples.userInfo =
        Ok program /\
      NoDup (exportedNames program)).
Proof.
  split; (eexists; split; [reflexivity|]).
  - apply (proj1 (exported_names_are_distinct Examples.internalOnly)
             GeneratorExamples.hello).
    reflexivity.
  - apply (proj2 (exported_names_are_distinct Examples.internalOnly)
             GeneratorExamples.userInfo).
    reflexivity.
Defined.

(** X8. A generated program is closed: every type that its exported types
    refer to is imported or exported by the program itself. *)
Theorem generated_programs_are_closed (config : Config) :
  (forall definition program,
      generateOperationTypeDefs config definition = Ok program ->
      referencedByProgram program ⊆
        importedNames program ++ exportedNames program) /\
  (forall definition program,
      generateFragmentTypeDefs config definition = Ok program ->
      referencedByProgram program ⊆
        importedNames program ++ exportedNames program).
Proof.
  split; intros definition program.
  - unfold generateOperationTypeDefs.
    destruct (op_name definition) as [name|]; [|done]. cbv zeta.
    destruct (match op_operation definition with
              | query => _ | mutation => _ | subscription => _ end); [|done].
    destruct (op_variableDefinitions definition) as [|vd vds];
      destruct (op_operation definition); intros [= <-]; simpl;
      set_solver.
  - unfold generateFragmentTypeDefs.
    destruct (getType _ _); [|done]. intros [= <-]. simpl. set_solver.
Qed.

Lemma generated_programs_are_closed_witness :
  exists program,
    generateOperationTypeDefs Examples.internalOnly GeneratorExamples.hello =
      Ok program /\
    referencedByProgram program ⊆
      importedNames program ++ exportedNames program.
Proof.
  eexists. split; [reflexivity|].
  apply (proj1 (generated_programs_are_closed Examples.internalOnly)
           GeneratorExamples.hello).
  reflexivity.
Defined.

(** X9. A generated program holds nothing but type-only imports from the
    internal type-definition file and exported types. *)
Theorem generated_programs_import_internal_types (config : Config) :
  (forall definition program,
      generateOperationTypeDefs config definition = Ok program ->
      Forall (isArtifactStatement config) program) /\
  (forall definition program,
      generateFragmentTypeDefs config definition = Ok program ->
      Forall (isArtifactStatement config) program).
Proof.
  split; intros definition program.
  - unfold generateOperationTypeDefs.
    destruct (op_name definition) as [name|]; [|done]. cbv zeta.
    destruct (match op_operation definition with
              | query => _ | mutation => _ | subscription => _ end); [|done].
    destruct (op_variableDefinitions definition) as [|vd vds];
      destruct (op_operation definition); intros [= <-]; simpl;
      by repeat constructor.
  - unfold generateFragmentTypeDefs.
    destruct (getType _ _); [|done]. intros [= <-]. simpl.
    by repeat constructor.
Qed.

Lemma generated_programs_import_internal_types_witness :
  exists program,
    generateFragmentTypeDefs Examples.internalOnly GeneratorExamples.userInfo =
      Ok program /\
    Forall (isArtifactStatement Examples.internalOnly) program.
Proof.
  eexists. split; [reflexivity|].
  apply (proj2 (generated_programs_import_internal_types Examples.internalOnly)
           GeneratorExamples.userInfo).
  reflexivity.
Defined.

(** ** The index *)

Lemma span_split (p : ascii -> bool) (l : list ascii) :
  l = (span p l).1 ++ (span p l).2 /\
  forallb p (span p l).1 = true.
Proof.
  induction l as [|c l [IH1 IH2]]; simpl; [done|].
  destruct (p c) eqn:Hc; [|done].
  destruct (span p l) as [run tail]. simpl in *. rewrite Hc.
  split; [by f_equal|done].
Qed.

Lemma string_of_list_ascii_app (l1 l2 : list ascii) :
  String.string_of_list_ascii (l1 ++ l2) =
  String.string_of_list_ascii l1 +:+ String.string_of_list_ascii l2.
Proof.
  induction l1 as [|c l1 IH]; [done|]. simpl.
  change (String c (String.string_of_list_ascii l1) +:+ ?t)
    with (String c (String.string_of_list_ascii l1 +:+ t)).
  by rewrite IH.
Qed.

Lemma isSegment_of_reversed (c : ascii) (run : list ascii) :
  forallb isSegmentChar (c :: run) = true ->
  isSegment (String.string_of_list_ascii (rev (c :: run))) = true.
Proof.
  intros H. unfold isSegment.
  rewrite String.list_ascii_of_string_of_list_ascii.
  apply forallb_rev in H.
  destruct (rev (c :: run)) as [|c' l] eqn:E; [|done].
  apply (f_equal (@length ascii)) in E. by rewrite length_rev in E.
Qed.

Lemma matchDualExtension_Some (reversed front : list ascii) :
  matchDualExtension reversed = Some front ->
  exists a first b second,
    forallb isSegmentChar (a :: first) = true /\
    forallb isSegmentChar (b :: second) = true /\
    reversed = (b :: second) ++ "."%char :: (a :: first) ++ "."%char :: front.
Proof.
  unfold matchDualExtension.
  destruct (span_split isSegmentChar reversed) as [E1 H1].
  destruct (span isSegmentChar reversed) as [[|b second] tail1]; [done|].
  simpl in E1, H1.
  destruct tail1 as [|dot1 tail1]; [done|].
  destruct (decide (dot1 = "."%char)) as [->|Hdot1];
    [|by destruct dot1 as [[] [] [] [] [] [] [] []]].
  destruct (span_split isSegmentChar tail1) as [E2 H2].
  destruct (span isSegmentChar tail1) as [[|a first] tail2]; [done|].
  simpl in E2, H2.
  destruct tail2 as [|dot2 tail2]; [done|].
  destruct (decide (dot2 = "."%char)) as [->|Hdot2];
    [|by destruct dot2 as [[] [] [] [] [] [] [] []]].
  intros [= <-]. exists a, first, b, second.
  split; [done|]. split; [done|]. by rewrite E1, E2.
Qed.

(** X10. What [removeDualExtension] takes off the end of a text is always
    a dot, a name, a dot and a name, where a name is a non-empty run of
    characters other than [/] and [.]; otherwise it returns the text as it
    is. It never removes a path separator. *)
Theorem removeDualExtension_removes_two_extensions (text : string) :
  removeDualExtension text = text \/
  exists first second,
    isSegment first = true /\ isSegment second = true /\
    text = removeDualExtension text +:+ "." +:+ first +:+ "." +:+ second.
Proof.
  unfold removeDualExtension.
  destruct (matchDualExtension (rev (String.list_ascii_of_string text)))
    as [front|] eqn:Hmatch; [right|by left].
  apply matchDualExtension_Some in Hmatch.
  destruct Hmatch as (a & first & b & second & Ha & Hb & Hrev).
  exists (String.string_of_list_ascii (rev (a :: first))),
         (String.string_of_list_ascii (rev (b :: second))).
  split; [by apply isSegment_of_reversed|].
  split; [by apply isSegment_of_reversed|].
  apply (f_equal (@rev ascii)) in Hrev. rewrite rev_involutive in Hrev.
  rewrite <- (String.string_of_list_ascii_of_string text) at 1. rewrite Hrev.
  generalize (a :: first) (b :: second). intros Y X.
  rewrite rev_app_distr. cbn [rev]. rewrite rev_app_distr. cbn [rev].
  rewrite <- !app_assoc. by rewrite !string_of_list_ascii_app.
Qed.

Example removeDualExtension_in_dotted_directory :
  removeDualExtension "types.d.ts/Hello" = "types.d.ts/Hello".
Proof. vm_compute. reflexivity. Qed.

Lemma matchDualExtension_single (first second rest : list ascii) :
  first <> [] -> forallb isSegmentChar first = true ->
  second <> [] -> forallb isSegmentChar second = true ->
  matchDualExtension (second ++ "."%char :: first) = None /\
  matchDualExtension (second ++ "."%char :: first ++ "/"%char :: rest) = None.
Proof.
  intros Hne1 H1 Hne2 H2. unfold matchDualExtension. split.
  - rewrite (span_app isSegmentChar second) by done.
    destruct second as [|b second]; [done|]. cbv beta iota zeta.
    rewrite <- (app_nil_r first).
    rewrite (span_app isSegmentChar first) by done.
    by destruct first.
  - rewrite (span_app isSegmentChar second) by done.
    destruct second as [|b second]; [done|]. cbv beta iota zeta.
    rewrite (span_app isSegmentChar first) by done.
    by destruct first.
Qed.

(** X11. A single extension is not removed: a file name with one dot keeps
    it, alone and behind a directory, whatever the directory looks like. *)
Theorem removeDualExtension_keeps_single_extension
    (base extension : string) :
  isSegment base = true ->
  isSegment extension = true ->
  removeDualExtension (base +:+ "." +:+ extension) =
    base +:+ "." +:+ extension /\
  forall directory,
    removeDualExtension (directory +:+ "/" +:+ base +:+ "." +:+ extension) =
    directory +:+ "/" +:+ base +:+ "." +:+ extension.
Proof.
  intros (a & As & Ea & Ha)%isSegment_chars (b & Bs & Eb & Hb)%isSegment_chars.
  destruct (matchDualExtension_single (a :: As) (b :: Bs) [] ltac:(done) Ha
              ltac:(done) Hb) as [Hnone _].
  split.
  - unfold removeDualExtension.
    rewrite !list_ascii_of_string_app, !rev_app_distr, Ea, Eb.
    change (rev (String.list_ascii_of_string ".")) with ["."%char].
    rewrite <- !app_assoc.
    change (["."%char] ++ a :: As) with ("."%char :: a :: As).
    by rewrite Hnone.
  - intros directory.
    destruct (matchDualExtension_single (a :: As) (b :: Bs)
                (rev (String.list_ascii_of_string directory))
                ltac:(done) Ha ltac:(done) Hb) as [_ Hdir].
    unfold removeDualExtension.
    rewrite !list_ascii_of_string_app, !rev_app_distr, Ea, Eb.
    change (rev (String.list_ascii_of_string ".")) with ["."%char].
    change (rev (String.list_ascii_of_string "/")) with ["/"%char].
    rewrite <- !app_assoc.
    change (["."%char] ++ (a :: As) ++ ["/"%char] ++ ?l)
      with ("."%char :: (a :: As) ++ "/"%char :: l).
    by rewrite Hdir.
Qed.

Lemma removeDualExtension_keeps_single_extension_witness :
  removeDualExtension "Hello.ts" = "Hello.ts" /\
  removeDualExtension "types.d.ts/Hello.ts" = "types.d.ts/Hello.ts".
Proof.
  destruct (removeDualExtension_keeps_single_extension "Hello" "ts"
              eq_refl eq_refl) as [H1 H2].
  split; [exact H1|exact (H2 "types.d.ts")].
Defined.

(** ** The orchestrator *)

Lemma mapM_Ok {A B} (f : A -> result B) (l : list A) (ys : list B) :
  mapM f l = Ok ys <-> Forall2 (fun x y => f x = Ok y) l ys.
Proof.
  revert ys. induction l as [|a l IH]; intros ys; simpl.
  - split.
    + intros [= <-]. constructor.
    + intros H. by inversion H.
  - split.
    + destruct (f a) as [b|e] eqn:Ha; [|done]. simpl.
      destruct (mapM f l) as [ys'|e] eqn:Hl; [|done]. simpl.
      intros [= <-]. constructor; [done|]. by apply IH.
    + intros H. inversion H as [|? y ? ys' Hy Hys]; subst.
      rewrite Hy. simpl. apply IH in Hys. by rewrite Hys.
Qed.

Lemma mapM_succeeds {A B} (f : A -> result B) (l : list A) :
  succeeds (mapM f l) <-> Forall (fun x => succeeds (f x)) l.
Proof.
  induction l as [|a l IH]; simpl.
  - split; [constructor|done].
  - rewrite Forall_cons, <- IH.
    destruct (f a) as [b|e]; simpl; [|tauto].
    destruct (mapM f l) as [ys|e]; simpl; tauto.
Qed.

Lemma generateDocumentTypes_eq (config : Config) (doc : CollectedGraphQLDocument) :
  generateDocumentTypes config doc =
  if generateArtifact doc then
    match findDefinition doc with
    | Some definition =>
        program ← synthesize config definition;
        Ok (Some (artifactTypePath config (originalDocument doc), Printed program))
    | None => Throw TypeError
    end
  else Ok None.
Proof.
  unfold generateDocumentTypes. fold (findDefinition doc).
  destruct (generateArtifact doc); [|done]. simpl.
  by destruct (findDefinition doc) as [[o|f]|].
Qed.

Lemma generateDocumentTypes_Ok (config : Config) (doc : CollectedGraphQLDocument)
    (r : option (string * FileContent)) :
  generateDocumentTypes config doc = Ok r ->
  if generateArtifact doc then
    exists program,
      r = Some (artifactTypePath config (originalDocument doc), Printed program)
  else r = None.
Proof.
  rewrite generateDocumentTypes_eq.
  destruct (generateArtifact doc); [|by intros [= <-]].
  destruct (findDefinition doc) as [definition|]; [|done].
  destruct (synthesize config definition) as [program|e]; [|done].
  simpl. intros [= <-]. by eexists.
Qed.

Lemma written_files (config : Config) (docs : list CollectedGraphQLDocument)
    (results : list (option (string * FileContent))) :
  mapM (generateDocumentTypes config) docs = Ok results ->
  map fst (omap (fun file => file) results) = artifactPaths config docs /\
  Forall (fun file => exists program, file.2 = Printed program)
    (omap (fun file => file) results).
Proof.
  rewrite mapM_Ok. unfold artifactPaths.
  induction 1 as [|doc r docs results Hdoc _ [IH1 IH2]]; [by split|].
  apply generateDocumentTypes_Ok in Hdoc.
  rewrite filter_cons.
  change (omap ?f (r :: results)) with
    (match f r with Some y => y :: omap f results | None => omap f results end).
  destruct (generateArtifact doc).
  - destruct Hdoc as [program ->]. rewrite decide_True by done. simpl.
    split; [by rewrite IH1|]. constructor; [by eexists|done].
  - subst r. by rewrite decide_False by done.
Qed.

(** X12. A run that goes through writes first the file of the internal
    type definitions, then one printed program for each document flagged
    for an artifact, at the path of its artifact types, and last the
    index, which lists the paths of the programs written. The order among
    the programs is the one in which their writes complete, which the code
    does not fix: the paths are stated up to their order. *)
Theorem run_writes_internal_artifacts_index
    (codegen : list DocumentNode -> GraphQLSchema -> result string)
    (relative resolve : string -> string -> string)
    (config : Config) (docs : list CollectedGraphQLDocument)
    (files : list (string * FileContent)) :
  typescriptGenerator codegen relative resolve config docs = Ok files ->
  exists text written,
    codegen (scrubbedDocuments config docs) (schema config) = Ok text /\
    files =
      (internalTypeDefinitionFile config, Text text) :: written ++
      [(typeIndexPath config,
        Printed (typeIndex relative resolve config (map fst written)))] /\
    map fst written ≡ₚ artifactPaths config docs /\
    Forall (fun file => exists program, file.2 = Printed program) written.
Proof.
  unfold typescriptGenerator. fold (scrubbedDocuments config docs).
  destruct (codegen _ _) as [text|e]; [|done]. simpl.
  destruct (mapM _ docs) as [results|e] eqn:Hresults; [|done]. simpl.
  intros [= <-].
  destruct (written_files _ _ _ Hresults) as [Hpaths Hprinted].
  exists text, (omap (fun file => file) results).
  by rewrite Hpaths.
Qed.

Lemma run_writes_internal_artifacts_index_witness :
  exists text written,
    GeneratorExamples.codegen
      (scrubbedDocuments Examples.internalOnly
         [GeneratorExamples.collected "Hello"
            (Operation GeneratorExamples.hello)])
      (schema Examples.internalOnly) = Ok text /\
    (exists files,
        typescriptGenerator GeneratorExamples.codegen GeneratorExamples.relative
          GeneratorExamples.resolve Examples.internalOnly
          [GeneratorExamples.collected "Hello"
             (Operation GeneratorExamples.hello)] = Ok files /\
        files =
          ("$houdini/graphql/generated.ts", Text text) :: written ++
          [("$houdini/index.d.ts",
            Printed (typeIndex GeneratorExamples.relative
                       GeneratorExamples.resolve Examples.internalOnly
                       (map fst written)))]) /\
    map fst written ≡ₚ ["$houdini/artifacts/Q.d.ts"].
Proof.
  destruct (run_writes_internal_artifacts_index GeneratorExamples.codegen
              GeneratorExamples.relative GeneratorExamples.resolve
              Examples.internalOnly
              [GeneratorExamples.collected "Hello"
                 (Operation GeneratorExamples.hello)] _ eq_refl)
    as (text & written & Hcodegen & Hfiles & Hpaths & _).
  exists text, written. split; [exact Hcodegen|]. split.
  - eexists. split; [reflexivity|]. exact Hfiles.
  - exact Hpaths.
Defined.



Lemma find_first {A} (p : A -> bool) (before after : list A) (x : A) :
  Forall (fun y => p y = false) before -> p x = true ->
  List.find p (before ++ x :: after) = Some x.
Proof.
  intros Hbefore Hx. induction Hbefore as [|y before Hy _ IH]; simpl.
  - by rewrite Hx.
  - by rewrite Hy.
Qed.

Lemma find_nowhere {A} (p : A -> bool) (l : list A) :
  Forall (fun y => p y = false) l -> List.find p l = None.
Proof.
  intros H. induction H as [|y l Hy _ IH]; simpl; [done|]. by rewrite Hy.
Qed.

Lemma run_succeeds
    (codegen : list DocumentNode -> GraphQLSchema -> result string)
    (relative resolve : string -> string -> string)
    (config : Config) (docs : list CollectedGraphQLDocument) :
  succeeds (typescriptGenerator codegen relative resolve config docs) <->
  succeeds (codegen (scrubbedDocuments config docs) (schema config)) /\
  succeeds (mapM (generateDocumentTypes config) docs).
Proof.
  unfold typescriptGenerator. fold (scrubbedDocuments config docs).
  destruct (codegen _ _) as [text|e]; simpl; [|tauto].
  destruct (mapM _ docs) as [results|e]; simpl; tauto.
Qed.

(** X14. When a document flagged for an artifact has no definition that
    bears its name, in particular when it has no definition at all, its
    synthesis throws a [TypeError], and no run over documents that include
    it goes through. *)
Theorem missing_definition_aborts_the_run
    (codegen : list DocumentNode -> GraphQLSchema -> result string)
    (relative resolve : string -> string -> string)
    (config : Config) (doc : CollectedGraphQLDocument) :
  generateArtifact doc = true ->
  Forall (fun def => definitionName def <> Some (name doc))
    (definitions (originalDocument doc)) ->
  generateDocumentTypes config doc = Throw TypeError /\
  forall docs,
    doc ∈ docs ->
    ~ succeeds (typescriptGenerator codegen relative resolve config docs).
Proof.
  intros Hartifact Hnames.
  assert (Hdoc : generateDocumentTypes config doc = Throw TypeError).
  { rewrite generateDocumentTypes_eq, Hartifact. unfold findDefinition.
    rewrite find_nowhere; [done|].
    eapply Forall_impl; [exact Hnames|].
    intros def Hdef. by apply bool_decide_eq_false_2. }
  split; [exact Hdoc|].
  intros docs Hin [_ Hall]%run_succeeds.
  rewrite mapM_succeeds, Forall_forall in Hall.
  specialize (Hall doc Hin). by rewrite Hdoc in Hall.
Qed.

Lemma missing_definition_aborts_the_run_witness :
  generateDocumentTypes Examples.internalOnly
    (GeneratorExamples.collected "Goodbye" (Operation GeneratorExamples.hello)) =
  Throw TypeError.
Proof.
  apply (missing_definition_aborts_the_run GeneratorExamples.codegen
           GeneratorExamples.relative GeneratorExamples.resolve
           Examples.internalOnly
           (GeneratorExamples.collected "Goodbye"
              (Operation GeneratorExamples.hello))).
  - reflexivity.
  - repeat constructor. vm_compute. discriminate.
Defined.

(** X15. The shape generator is only ever given scrubbed documents: two
    shape generators that agree on the lists of documents without internal
    directives and without unreferenced variable definitions give the same
    run. *)
Theorem run_gives_scrubbed_documents_to_codegen
    (codegen1 codegen2 : list DocumentNode -> GraphQLSchema -> result string)
    (relative resolve : string -> string -> string)
    (config : Config) (docs : list CollectedGraphQLDocument) :
  (forall documents schema,
      Forall (isScrubbed config) documents ->
      codegen1 documents schema = codegen2 documents schema) ->
  typescriptGenerator codegen1 relative resolve config docs =
  typescriptGenerator codegen2 relative resolve config docs.
Proof.
  intros Hagree. unfold typescriptGenerator.
  rewrite Hagree; [done|].
  apply Forall_forall. intros D HD.
  apply list_elem_of_fmap in HD. destruct HD as (doc & -> & _).
  apply scrub_isScrubbed.
Qed.

Lemma run_gives_scrubbed_documents_to_codegen_witness :
  typescriptGenerator GeneratorExamples.codegen GeneratorExamples.relative
    GeneratorExamples.resolve Examples.internalOnly
    [GeneratorExamples.collected "Q" (Operation GeneratorExamples.hello)] =
  typescriptGenerator (strictCodegen Examples.internalOnly)
    GeneratorExamples.relative GeneratorExamples.resolve Examples.internalOnly
    [GeneratorExamples.collected "Q" (Operation GeneratorExamples.hello)].
Proof.
  apply run_gives_scrubbed_documents_to_codegen.
  intros documents schema Hscrubbed.
  unfold strictCodegen. by rewrite decide_True.
Defined.




(** X17. The types of a document are those of the first definition that
    bears its name: definitions with another name in front of it are
    passed over, and what comes after it is not looked at. *)
Theorem first_named_definition_is_used
    (config : Config) (doc : CollectedGraphQLDocument)
    (before after : list DefinitionNode) (definition : DefinitionNode) :
  generateArtifact doc = true ->
  definitions (originalDocument doc) = before ++ definition :: after ->
  Forall (fun def => definitionName def <> Some (name doc)) before ->
  definitionName definition = Some (name doc) ->
  generateDocumentTypes config doc =
  (program ← synthesize config definition;
   Ok (Some (artifactTypePath config (originalDocument doc), Printed program))).
Proof.
  intros Hartifact Hdefs Hbefore Hname.
  rewrite generateDocumentTypes_eq, Hartifact. unfold findDefinition.
  rewrite Hdefs, (find_first _ before after definition); [done| |].
  - eapply Forall_impl; [exact Hbefore|].
    intros def Hdef. by apply bool_decide_eq_false_2.
  - by apply bool_decide_eq_true_2.
Qed.

Lemma first_named_definition_is_used_witness :
  generateDocumentTypes Examples.internalOnly
    {| name := "Hello";
       document := Document [];
       originalDocument :=
         Document [ Fragment GeneratorExamples.userInfo;
                    Operation GeneratorExamples.hello;
                    Fragment (FragmentDefinition (Name "Hello") []
                                (NamedType (Name "User")) [] (SelectionSet [])) ];
       generateStore := false;
       generateArtifact := true |} =
  (program ← generateOperationTypeDefs Examples.internalOnly GeneratorExamples.hello;
   Ok (Some ("$houdini/artifacts/Q.d.ts", Printed program))).
Proof.
  apply (first_named_definition_is_used Examples.internalOnly _
           [Fragment GeneratorExamples.userInfo]
           [Fragment (FragmentDefinition (Name "Hello") []
                        (NamedType (Name "User")) [] (SelectionSet []))]
           (Operation GeneratorExamples.hello)).
  - reflexivity.
  - reflexivity.
  - repeat constructor. vm_compute. discriminate.
  - reflexivity.
Defined.
